(** * keto storage handler: Get / Delete / List / Upsert over named collections

    A shallow embedding of [storage/handler.go] and the properties of its
    List decision and filtering logic.

    Conventions of the embedding
    - Go [int] is [Z]; [len] of a slice is [Z.of_nat (length _)]. The only
      arithmetic of [handler.go] is [len(split)-1], so nothing can wrap.
    - Go [string] is [string] (a sequence of bytes), compared with [String.eqb].
    - [map[string][]string] is [gmap string (list string)]; indexing an absent
      key yields the nil slice, the comma-ok form tests presence of the key.
    - [interface{}] holding a pointer is an inductive [Value]; pointers are
      addresses into an explicit [Heap], so that aliasing is visible.
    - a [panic] is the [Panicked] outcome of a [result].
    - the handlers talk to two collaborators, the storage [Manager] and the
      [herodot.Writer]; every call to either is recorded, in order, in the
      [log] of the [World]. *)

From Stdlib Require Import Ascii.
From stdpp Require Import gmap strings list fin_maps.

Local Open Scope Z_scope.

Abbreviation Query := (gmap string (list string)).
Abbreviation addr := nat.

(** ** Go built-ins used by the handler *)

(** [m[k]] on a [map[string][]string]: the zero value (nil slice) when absent. *)
Definition mapIndex (m : Query) (k : string) : list string :=
  match m !! k with
  | Some vs => vs
  | None => []
  end.

(** [_, ok := m[k]]. *)
Definition mapHas (m : Query) (k : string) : bool :=
  match m !! k with
  | Some _ => true
  | None => false
  end.

(** [strings.Split(s, sep)] for a one-byte separator: the pieces of [s]
    between the occurrences of [sep], in order. *)
Fixpoint Split (s : string) (sep : Ascii.ascii) : list string :=
  match s with
  | EmptyString => [EmptyString]
  | String c rest =>
      if Ascii.eqb c sep then EmptyString :: Split rest sep
      else match Split rest sep with
           | seg :: segs => String c seg :: segs
           | [] => [String c EmptyString]
           end
  end.

(** [xs[start:end]]. Go checks [0 <= start <= end <= cap(xs)]; the embedding
    keeps lengths only, so a window that leaves [0 .. len(xs)] is reported as
    [None] (in Go: a slice-bounds panic, or, when [end] still fits the
    capacity, a slice that exposes the slack of the backing array). *)
Definition reslice {A : Type} (xs : list A) (start end_ : Z) : option (list A) :=
  if bool_decide (0 <= start /\ start <= end_ /\ end_ <= Z.of_nat (length xs))
  then Some (take (Z.to_nat (end_ - start)) (drop (Z.to_nat start) xs))
  else None.

Inductive PanicCause :=
  | PanicMsg (msg : string)
  | NilDereference
  | SliceBounds
  | IndexRange.

Inductive result (A : Type) :=
  | Returned (a : A)
  | Panicked (c : PanicCause).
Arguments Returned {A} a.
Arguments Panicked {A} c.

(** ** Data model *)

(** The dynamic content of an [interface{}] field: a [*Roles], a [*Policies],
    a value of any other dynamic type, or the nil interface. *)
Inductive Value :=
  | PtrRoles (p : addr)
  | PtrPolicies (p : addr)
  | OtherValue (tag : nat)
  | NilInterface.

(** A function value of type [func(l *ListRequest, m map[string][]string, offset, limit int)]:
    [ListByQuery] itself or any other function, named by a number. *)
Inductive FuncRef :=
  | FnListByQuery
  | FnOther (n : nat).

Record GetRequest := {
  GetRequest_Collection : string;
  GetRequest_Key : string;
  GetRequest_Value : Value
}.

Record DeleteRequest := {
  DeleteRequest_Collection : string;
  DeleteRequest_Key : string
}.

Record ListRequest := {
  ListRequest_Collection : string;
  ListRequest_Value : Value;
  ListRequest_FilterFunc : option FuncRef
}.

Record UpsertRequest := {
  UpsertRequest_Collection : string;
  UpsertRequest_Key : string;
  UpsertRequest_Value : Value
}.

(** [l.Value = v] through the pointer [l]. *)
Definition set_Value (l : ListRequest) (v : Value) : ListRequest :=
  {| ListRequest_Collection := ListRequest_Collection l;
     ListRequest_Value := v;
     ListRequest_FilterFunc := ListRequest_FilterFunc l |}.

(** Go's [error] values, identified by their message. *)
Definition error := string.

(** What the handlers read of [*http.Request] and [httprouter.Params]. *)
Record Request := {
  URL_Query : Query;
  Body : string
}.

Definition Params := list (string * string).

(** ** The rest of package [storage], and package [pagination]

    [handler.go] uses the types [Role], [Roles], [Policy], [Policies] and the
    methods [withMembers], [withIDs], [withSubjects], [withResources],
    [withActions] declared in other files of the package. They are an
    interface here; [*Role] and [*Policy] results are [option]s, [None] being
    the nil pointer. *)
Class StorageTypes := {
  Role : Type;
  Policy : Type;
  Role_withMembers : option Role -> list string -> option Role;
  Role_withIDs : option Role -> list string -> option Role;
  Policy_withSubjects : option Policy -> list string -> option Policy;
  Policy_withResources : option Policy -> list string -> option Policy;
  Policy_withActions : option Policy -> list string -> option Policy;
  Policy_withIDs : option Policy -> list string -> option Policy
}.

(** [github.com/ory/x/pagination]. *)
Class Pagination := {
  Index : Z -> Z -> Z -> Z * Z;
  Parse : Request -> Z -> Z -> Z -> Z * Z
}.

(** ** ListRequest.Filter and ListByQuery *)

Section Filtering.
Context `{StorageTypes} `{Pagination}.

(** The heap: the [Roles] and [Policies] slices that pointers refer to.
    An address outside the domain is the nil pointer. *)
Record Heap := {
  rolesAt : gmap addr (list Role);
  policiesAt : gmap addr (list Policy)
}.

(** [&res] for a [Roles] value that escapes: a fresh cell. *)
Definition allocRoles (res : list Role) (h : Heap) : addr * Heap :=
  let p := fresh (dom (rolesAt h)) in
  (p, {| rolesAt := <[p := res]> (rolesAt h); policiesAt := policiesAt h |}).

Definition allocPolicies (res : list Policy) (h : Heap) : addr * Heap :=
  let p := fresh (dom (policiesAt h)) in
  (p, {| rolesAt := rolesAt h; policiesAt := <[p := res]> (policiesAt h) |}).

(** Lines 90-95: [for _, role := range *val { ... res = append(res, ...) }]. *)
Fixpoint rolesLoop (val : list Role) (m : Query) (res : list Role) : list Role :=
  match val with
  | [] => res
  | role :: rest =>
      let filteredRole :=
        Role_withIDs (Role_withMembers (Some role) (mapIndex m "member")) (mapIndex m "id") in
      match filteredRole with
      | Some r => rolesLoop rest m (res ++ [r])
      | None => rolesLoop rest m res
      end
  end.

(** Lines 101-106. *)
Fixpoint policiesLoop (val : list Policy) (m : Query) (res : list Policy) : list Policy :=
  match val with
  | [] => res
  | policy :: rest =>
      let filteredPolicy :=
        Policy_withIDs
          (Policy_withActions
             (Policy_withResources
                (Policy_withSubjects (Some policy) (mapIndex m "subject"))
                (mapIndex m "resource"))
             (mapIndex m "action"))
          (mapIndex m "id") in
      match filteredPolicy with
      | Some p => policiesLoop rest m (res ++ [p])
      | None => policiesLoop rest m res
      end
  end.

(** Lines 96-97 and 107-108:
    [start, end := pagination.Index(limit, offset, len(res)); res = res[start:end]]. *)
Definition window {A : Type} (limit offset : Z) (res : list A) : option (list A) :=
  let '(start, end_) := Index limit offset (Z.of_nat (length res)) in
  reslice res start end_.

Definition ListByQuery (l : ListRequest) (m : Query) (offset limit : Z) (h : Heap)
  : result (ListRequest * Heap) :=
  match ListRequest_Value l with
  | PtrRoles val =>
      match rolesAt h !! val with
      | None => Panicked NilDereference
      | Some roles =>
          let res := rolesLoop roles m [] in
          match window limit offset res with
          | None => Panicked SliceBounds
          | Some res =>
              let '(p, h') := allocRoles res h in
              Returned (set_Value l (PtrRoles p), h')
          end
      end
  | PtrPolicies val =>
      match policiesAt h !! val with
      | None => Panicked NilDereference
      | Some policies =>
          let res := policiesLoop policies m [] in
          match window limit offset res with
          | None => Panicked SliceBounds
          | Some res =>
              let '(p, h') := allocPolicies res h in
              Returned (set_Value l (PtrPolicies p), h')
          end
      end
  | OtherValue _ | NilInterface =>
      Panicked (PanicMsg "storage:unable to cast list request to a known type!")
  end.

(** The function values a [FilterFunc] field can hold besides [ListByQuery]. *)
Variable otherFilterFunc :
  nat -> ListRequest -> Query -> Z -> Z -> Heap -> result (ListRequest * Heap).

Definition callFilterFunc (f : FuncRef)
  : ListRequest -> Query -> Z -> Z -> Heap -> result (ListRequest * Heap) :=
  match f with
  | FnListByQuery => ListByQuery
  | FnOther n => otherFilterFunc n
  end.

(** [func (l *ListRequest) Filter(m, offset, limit) *ListRequest]; the pair
    returned is the content of [*l] and the heap after the call. *)
Definition ListRequest_Filter (l : ListRequest) (m : Query) (offset limit : Z) (h : Heap)
  : result (ListRequest * Heap) :=
  match ListRequest_FilterFunc l with
  | Some f => callFilterFunc f l m offset limit h
  | None => Returned (l, h)
  end.

End Filtering.

(** ** The storage backend and the response writer *)

(** The [Manager] interface ([h.s]). A method gets the heap, because it fills
    the destination its [value] argument points to, and the backend's own
    state [DB]; it returns the error (if any) and both states. The [ctx]
    argument is [r.Context()] and carries no data of its own. *)
Class Manager `{StorageTypes} := {
  DB : Type;
  Manager_Get : string -> string -> Value -> Heap -> DB -> option error * Heap * DB;
  Manager_Delete : string -> string -> Heap -> DB -> option error * Heap * DB;
  Manager_List : string -> Value -> Z -> Z -> Heap -> DB -> option error * Heap * DB;
  Manager_ListAll : string -> Value -> Heap -> DB -> option error * Heap * DB;
  Manager_Upsert : string -> string -> Value -> Heap -> DB -> option error * Heap * DB
}.

(** What the handler does to its collaborators, in order: the calls to the
    backend, and the calls [h.h.WriteError], [h.h.Write], [w.WriteHeader]. *)
Inductive Event :=
  | CallGet (collection key : string) (value : Value)
  | CallDelete (collection key : string)
  | CallList (collection : string) (value : Value) (limit offset : Z)
  | CallListAll (collection : string) (value : Value)
  | CallUpsert (collection key : string) (value : Value)
  | EvWriteError (err : error)
  | EvWrite (value : Value)
  | EvWriteHeader (status : Z).

Definition StatusNoContent : Z := 204.

Section Handlers.
Context `{StorageTypes} `{Pagination} `{!Manager}.

Variable otherFilterFunc :
  nat -> ListRequest -> Query -> Z -> Z -> Heap -> result (ListRequest * Heap).

Record World := {
  heap : Heap;
  db : DB;
  log : list Event
}.

Definition setHeap (w : World) (h : Heap) : World :=
  {| heap := h; db := db w; log := log w |}.

Definition emit (e : Event) (w : World) : World :=
  {| heap := heap w; db := db w; log := log w ++ [e] |}.

Definition backend (e : Event) (f : Heap -> DB -> option error * Heap * DB) (w : World)
  : option error * World :=
  let '(err, h, d) := f (heap w) (db w) in
  (err, {| heap := h; db := d; log := log w ++ [e] |}).

Definition call_Get (collection key : string) (value : Value) : World -> option error * World :=
  backend (CallGet collection key value) (Manager_Get collection key value).

Definition call_Delete (collection key : string) : World -> option error * World :=
  backend (CallDelete collection key) (Manager_Delete collection key).

Definition call_List (collection : string) (value : Value) (limit offset : Z)
  : World -> option error * World :=
  backend (CallList collection value limit offset) (Manager_List collection value limit offset).

Definition call_ListAll (collection : string) (value : Value) : World -> option error * World :=
  backend (CallListAll collection value) (Manager_ListAll collection value).

Definition call_Upsert (collection key : string) (value : Value) : World -> option error * World :=
  backend (CallUpsert collection key value) (Manager_Upsert collection key value).

(** A request factory: it may allocate the destination it puts in [Value];
    it returns either the error or the request (never a nil request with a
    nil error), and it leaves the [*http.Request] as it is, so that the two
    calls of [r.URL.Query()] in [Handler.List] give the same map. *)
Definition Factory (Req : Type) : Type :=
  Request -> Params -> Heap -> (error + Req) * Heap.

(** [Handler.Get], lines 31-48. *)
Definition Handler_Get (factory : Factory GetRequest) (r : Request) (ps : Params) (w : World) : World :=
  match factory r ps (heap w) with
  | (inl err, h1) => emit (EvWriteError err) (setHeap w h1)
  | (inr d, h1) =>
      match call_Get (GetRequest_Collection d) (GetRequest_Key d) (GetRequest_Value d)
                     (setHeap w h1) with
      | (Some err, w) => emit (EvWriteError err) w
      | (None, w) => emit (EvWrite (GetRequest_Value d)) w
      end
  end.

(** [Handler.Delete], lines 55-71. *)
Definition Handler_Delete (factory : Factory DeleteRequest) (r : Request) (ps : Params) (w : World)
  : World :=
  match factory r ps (heap w) with
  | (inl err, h1) => emit (EvWriteError err) (setHeap w h1)
  | (inr d, h1) =>
      match call_Delete (DeleteRequest_Collection d) (DeleteRequest_Key d) (setHeap w h1) with
      | (Some err, w) => emit (EvWriteError err) w
      | (None, w) => emit (EvWriteHeader StatusNoContent) w
      end
  end.

(** [Handler.Upsert], lines 185-201. *)
Definition Handler_Upsert (factory : Factory UpsertRequest) (r : Request) (ps : Params) (w : World)
  : World :=
  match factory r ps (heap w) with
  | (inl err, h1) => emit (EvWriteError err) (setHeap w h1)
  | (inr u, h1) =>
      match call_Upsert (UpsertRequest_Collection u) (UpsertRequest_Key u)
                        (UpsertRequest_Value u) (setHeap w h1) with
      | (Some err, w) => emit (EvWriteError err) w
      | (None, w) => emit (EvWrite (UpsertRequest_Value u)) w
      end
  end.

(** Lines 128-173 of [Handler.List]: the choice of the backend call. The
    source repeats [if err != nil { WriteError; return }] after each of the
    five calls; here the call's error is returned and tested once in [Handler_List]. *)
Definition fetch (l : ListRequest) (queryParams : Query) (collectionType : string)
    (limit offset : Z) (w : World) : option error * World :=
  let isFilter := false in
  if String.eqb collectionType "policies" then
    let isFilter := if mapHas queryParams "action" then true else isFilter in
    let isFilter := if mapHas queryParams "subject" then true else isFilter in
    let isFilter := if mapHas queryParams "resource" then true else isFilter in
    if isFilter
    then call_ListAll (ListRequest_Collection l) (ListRequest_Value l) w
    else call_List (ListRequest_Collection l) (ListRequest_Value l) limit offset w
  else if String.eqb collectionType "roles" then
    let isFilter := if mapHas queryParams "member" then true else isFilter in
    if isFilter
    then call_ListAll (ListRequest_Collection l) (ListRequest_Value l) w
    else call_List (ListRequest_Collection l) (ListRequest_Value l) limit offset w
  else call_List (ListRequest_Collection l) (ListRequest_Value l) limit offset w.

(** [Handler.List], lines 115-177. The second component is the panic that
    ended the handler, if any; the world is the one it left behind. *)
Definition Handler_List (factory : Factory ListRequest) (r : Request) (ps : Params) (w : World)
  : World * option PanicCause :=
  let queryParams := URL_Query r in
  match factory r ps (heap w) with
  | (inl err, h1) => (emit (EvWriteError err) (setHeap w h1), None)
  | (inr l, h1) =>
      let w := setHeap w h1 in
      let '(limit, offset) := Parse r 100 0 500 in
      let split := Split (ListRequest_Collection l) "/"%char in
      match split !! (length split - 1)%nat with
      | None => (w, Some IndexRange)
      | Some collectionType =>
          match fetch l queryParams collectionType limit offset w with
          | (Some err, w) => (emit (EvWriteError err) w, None)
          | (None, w) =>
              let m := URL_Query r in
              match ListRequest_Filter otherFilterFunc l m offset limit (heap w) with
              | Panicked c => (w, Some c)
              | Returned (l, h2) => (emit (EvWrite (ListRequest_Value l)) (setHeap w h2), None)
              end
          end
      end
  end.

End Handlers.

(** ** The parts of the program outside [handler.go], from the specification *)

(** Modelled from the spec: the type [Role] of package [storage], declared
    outside [handler.go]. "Role: { ID: string, Members: ordered sequence of
    string }". *)
Record SpecRole := {
  Role_ID : string;
  Role_Members : list string
}.

(** Modelled from the spec: the type [Policy] of package [storage], declared
    outside [handler.go]. "Policy: { ID: string, Subjects: sequence of string,
    Resources: sequence of string, Actions: sequence of string }". *)
Record SpecPolicy := {
  Policy_ID : string;
  Policy_Subjects : list string;
  Policy_Resources : list string;
  Policy_Actions : list string
}.

(** "membership tests are exact string equality, case-sensitive". *)
Definition hasString (xs : list string) (x : string) : bool :=
  existsb (String.eqb x) xs.

(** The values [xs] of a record and the requested values [wanted] intersect. *)
Definition intersects (xs wanted : list string) : bool :=
  existsb (hasString xs) wanted.

(** Modelled from the spec: the method [withMembers] of [*Role], declared outside
    [handler.go]. "if member params present, keep only roles whose Members
    intersects them; an absent dimension imposes no constraint". A nil
    receiver stays nil, which is how the chained calls drop a role. *)
Definition withMembers (r : option SpecRole) (members : list string) : option SpecRole :=
  match r with
  | None => None
  | Some role =>
      match members with
      | [] => Some role
      | _ :: _ => if intersects (Role_Members role) members then Some role else None
      end
  end.

(** Modelled from the spec: the method [withIDs] of [*Role], declared outside [handler.go].
    "if id params present, keep only roles whose ID is in that set". *)
Definition roleWithIDs (r : option SpecRole) (ids : list string) : option SpecRole :=
  match r with
  | None => None
  | Some role =>
      match ids with
      | [] => Some role
      | _ :: _ => if hasString ids (Role_ID role) then Some role else None
      end
  end.

(** Modelled from the spec: the methods [withSubjects], [withResources],
    [withActions] and [withIDs] of [*Policy], declared outside [handler.go]. "For Policies:
    analogous AND of subject/resource/action/id dimensions"; a policy "matches
    independently on subject-set, resource-set, action-set, and ID-set". *)
Definition withSubjects (p : option SpecPolicy) (subjects : list string) : option SpecPolicy :=
  match p with
  | None => None
  | Some policy =>
      match subjects with
      | [] => Some policy
      | _ :: _ => if intersects (Policy_Subjects policy) subjects then Some policy else None
      end
  end.

Definition withResources (p : option SpecPolicy) (resources : list string) : option SpecPolicy :=
  match p with
  | None => None
  | Some policy =>
      match resources with
      | [] => Some policy
      | _ :: _ => if intersects (Policy_Resources policy) resources then Some policy else None
      end
  end.

Definition withActions (p : option SpecPolicy) (actions : list string) : option SpecPolicy :=
  match p with
  | None => None
  | Some policy =>
      match actions with
      | [] => Some policy
      | _ :: _ => if intersects (Policy_Actions policy) actions then Some policy else None
      end
  end.

Definition policyWithIDs (p : option SpecPolicy) (ids : list string) : option SpecPolicy :=
  match p with
  | None => None
  | Some policy =>
      match ids with
      | [] => Some policy
      | _ :: _ => if hasString ids (Policy_ID policy) then Some policy else None
      end
  end.

#[export] Instance specStorage : StorageTypes := {
  Role := SpecRole;
  Policy := SpecPolicy;
  Role_withMembers := withMembers;
  Role_withIDs := roleWithIDs;
  Policy_withSubjects := withSubjects;
  Policy_withResources := withResources;
  Policy_withActions := withActions;
  Policy_withIDs := policyWithIDs
}.

(** Modelled from the spec: [pagination.Index] of the external package
    [github.com/ory/x/pagination]. "given limit/offset and a collection size,
    computes a valid [start,end) slice window"; windowing is "selecting a
    contiguous sub-sequence [offset, offset+limit) from an ordered result":
    the window [offset, offset+limit) cut off at [length]. *)
Definition specIndex (limit offset length : Z) : Z * Z :=
  if offset >? length then (length, length)
  else if limit + offset >? length then (offset, length)
  else (offset, offset + limit).

(** Decimal digits of a query value. *)
Definition digitOf (c : Ascii.ascii) : option Z :=
  let n := Z.of_N (N_of_ascii c) in
  if (48 <=? n) && (n <=? 57) then Some (n - 48) else None.

Fixpoint parseDigits (s : string) (acc : Z) : option Z :=
  match s with
  | EmptyString => Some acc
  | String c rest =>
      match digitOf c with
      | Some d => parseDigits rest (10 * acc + d)
      | None => None
      end
  end.

Definition parseInt (s : string) : option Z :=
  match s with
  | EmptyString => None
  | String c rest =>
      if Ascii.eqb c "-"%char then
        match rest with
        | EmptyString => None
        | _ => Z.opp <$> parseDigits rest 0
        end
      else parseDigits s 0
  end.

(** [r.URL.Query().Get(k)]: the first value of [k], or the empty string. *)
Definition queryGet (q : Query) (k : string) : string :=
  match mapIndex q k with
  | v :: _ => v
  | [] => EmptyString
  end.

(** Modelled from the spec: [pagination.Parse] of the external package
    [github.com/ory/x/pagination]. "given a request, parses limit/offset from
    input with bounds [min=0, default=100, max=500]"; "limit (default 100,
    clamped [0,500]), offset (default 0, min 0)". *)
Definition specParse (r : Request) (defaultLimit defaultOffset maxLimit : Z) : Z * Z :=
  let offset := default defaultOffset (parseInt (queryGet (URL_Query r) "offset")) in
  let limit := default defaultLimit (parseInt (queryGet (URL_Query r) "limit")) in
  let limit := if limit >? maxLimit then maxLimit else limit in
  let limit := if limit <? 0 then 0 else limit in
  let offset := if offset <? 0 then 0 else offset in
  (limit, offset).

#[export] Instance specPagination : Pagination := {
  Index := specIndex;
  Parse := specParse
}.

(** ** Vocabulary of the properties *)

(** The record kind of a collection: the last [/]-delimited segment of its
    name ([split[len(split)-1]] in [Handler.List]). *)
Definition collectionType (collection : string) : string :=
  List.last (Split collection "/"%char) EmptyString.

(** The filter dimensions recognized for a kind; [id] is not one of them. *)
Definition recognizedDimensions (kind : string) : list string :=
  if String.eqb kind "policies" then ["action"; "subject"; "resource"]
  else if String.eqb kind "roles" then ["member"]
  else [].

(** At least one recognized dimension of the collection's kind is present
    in the query. *)
Definition isFilter (collection : string) (q : Query) : bool :=
  existsb (mapHas q) (recognizedDimensions (collectionType collection)).

Definition isBackendCall (e : Event) : bool :=
  match e with
  | CallGet _ _ _ | CallDelete _ _ | CallList _ _ _ _ | CallListAll _ _ | CallUpsert _ _ _ => true
  | EvWriteError _ | EvWrite _ | EvWriteHeader _ => false
  end.

(** A success response: [h.h.Write] or [w.WriteHeader]. *)
Definition isSuccessWrite (e : Event) : bool :=
  match e with
  | EvWrite _ | EvWriteHeader _ => true
  | _ => false
  end.

(** A role passes the member filter [M] and the id filter [I]. *)
Definition rolePasses (M I : list string) (r : SpecRole) : Prop :=
  (M = [] \/ exists x, x ∈ Role_Members r /\ x ∈ M) /\
  (I = [] \/ Role_ID r ∈ I).

(** A record with values [xs] passes the dimension whose requested values
    are [wanted]: the dimension is empty, or a requested value is among [xs]. *)
Definition passesDimension (wanted xs : list string) : Prop :=
  wanted = [] \/ exists x, x ∈ xs /\ x ∈ wanted.

Definition policyPasses (S R A I : list string) (p : SpecPolicy) : Prop :=
  passesDimension S (Policy_Subjects p) /\
  passesDimension R (Policy_Resources p) /\
  passesDimension A (Policy_Actions p) /\
  passesDimension I [Policy_ID p].

(** The properties above are decidable, so that they can be used with
    [filter]. *)
#[local] Instance intersect_dec (xs wanted : list string) :
  Decision (exists x, x ∈ xs /\ x ∈ wanted) :=
  match decide (Exists (fun x => x ∈ wanted) xs) with
  | left Hex => left (proj1 (Exists_exists _ _) Hex)
  | right Hno => right (fun Hex => Hno (proj2 (Exists_exists _ _) Hex))
  end.

#[local] Instance passesDimension_dec (wanted xs : list string) :
  Decision (passesDimension wanted xs) :=
  or_dec _ _.

#[local] Instance rolePasses_dec (M I : list string) (r : SpecRole) :
  Decision (rolePasses M I r) :=
  and_dec _ _.

#[local] Instance policyPasses_dec (S R A I : list string) (p : SpecPolicy) :
  Decision (policyPasses S R A I p) :=
  and_dec _ _.

(** [pagination.Index(limit, offset, n)] is a window inside [0 .. n]. *)
Definition validWindow `{Pagination} (limit offset n : Z) : Prop :=
  0 <= (Index limit offset n).1 /\
  (Index limit offset n).1 <= (Index limit offset n).2 /\
  (Index limit offset n).2 <= n.

(** The events a handler added to the log. *)
Definition addedTo (before after evs : list Event) : Prop :=
  after = before ++ evs.

(** "Mutated in place", read as a statement about the collection: once
    [ListByQuery] has returned, the collection that [Value] referenced before
    the call holds what [Value] references after it. *)
Definition filtersInPlace `{StorageTypes} `{Pagination}
    (l : ListRequest) (m : Query) (offset limit : Z) (h : Heap) : Prop :=
  forall l' h', ListByQuery l m offset limit h = Returned (l', h') ->
    match ListRequest_Value l, ListRequest_Value l' with
    | PtrRoles p, PtrRoles p' => rolesAt h' !! p = rolesAt h' !! p'
    | PtrPolicies p, PtrPolicies p' => policiesAt h' !! p = policiesAt h' !! p'
    | _, _ => True
    end.

(** ** An in-memory backend, to run the handlers on concrete requests *)

Record MemDB := {
  memRoles : gmap string (list SpecRole);
  memPolicies : gmap string (list SpecPolicy);
  memKeys : list (string * string)
}.

Definition page {A : Type} (limit offset : Z) (xs : list A) : list A :=
  take (Z.to_nat limit) (drop (Z.to_nat offset) xs).

(** Fills the destination with the collection cut by [cut]. *)
Definition memFetch (cut : forall A : Type, list A -> list A) (collection : string)
    (value : Value) (h : Heap) (d : MemDB) : option error * Heap * MemDB :=
  match value with
  | PtrRoles p =>
      match memRoles d !! collection with
      | Some rs =>
          (None, {| rolesAt := <[p := cut _ rs]> (rolesAt h); policiesAt := policiesAt h |}, d)
      | None => (Some "collection not found", h, d)
      end
  | PtrPolicies p =>
      match memPolicies d !! collection with
      | Some ps =>
          (None, {| rolesAt := rolesAt h; policiesAt := <[p := cut _ ps]> (policiesAt h) |}, d)
      | None => (Some "collection not found", h, d)
      end
  | OtherValue _ | NilInterface => (Some "unsupported destination", h, d)
  end.

Definition memHasKey (d : MemDB) (collection key : string) : bool :=
  bool_decide ((collection, key) ∈ memKeys d).

Definition memGet (collection key : string) (value : Value) (h : Heap) (d : MemDB)
  : option error * Heap * MemDB :=
  if memHasKey d collection key then (None, h, d) else (Some "not found", h, d).

Definition memDelete (collection key : string) (h : Heap) (d : MemDB)
  : option error * Heap * MemDB :=
  if memHasKey d collection key
  then (None, h, {| memRoles := memRoles d; memPolicies := memPolicies d;
                    memKeys := filter (fun ck => ck <> (collection, key)) (memKeys d) |})
  else (Some "not found", h, d).

Definition memUpsert (collection key : string) (value : Value) (h : Heap) (d : MemDB)
  : option error * Heap * MemDB :=
  (None, h, {| memRoles := memRoles d; memPolicies := memPolicies d;
               memKeys := (collection, key) :: memKeys d |}).

#[export] Instance memManager : Manager := {
  DB := MemDB;
  Manager_Get := memGet;
  Manager_Delete := memDelete;
  Manager_List := fun collection value limit offset =>
    memFetch (fun A => page limit offset) collection value;
  Manager_ListAll := memFetch (fun A xs => xs);
  Manager_Upsert := memUpsert
}.

(** No function other than [ListByQuery] is bound in the examples. *)
Definition noOtherFilter (n : nat) (l : ListRequest) (m : Query) (offset limit : Z) (h : Heap)
  : result (ListRequest * Heap) := Returned (l, h).

(** *** Example data (section 8 of the specification) *)

Definition r1 : SpecRole := {| Role_ID := "r1"; Role_Members := ["alice"] |}.
Definition r2 : SpecRole := {| Role_ID := "r2"; Role_Members := ["bob"] |}.
Definition r3 : SpecRole := {| Role_ID := "r3"; Role_Members := ["alice"; "carol"] |}.
Definition r4 : SpecRole := {| Role_ID := "r4"; Role_Members := [] |}.

Definition p1 : SpecPolicy :=
  {| Policy_ID := "p1"; Policy_Subjects := ["s1"]; Policy_Resources := ["res1"];
     Policy_Actions := ["read"] |}.

Definition exHeap : Heap :=
  {| rolesAt := {[ 0%nat := [r1; r2] ]}; policiesAt := {[ 0%nat := [p1] ]} |}.

Definition exRolesRequest : ListRequest :=
  {| ListRequest_Collection := "/store/roles";
     ListRequest_Value := PtrRoles 0;
     ListRequest_FilterFunc := Some FnListByQuery |}.

Definition exPoliciesRequest : ListRequest :=
  {| ListRequest_Collection := "/store/policies";
     ListRequest_Value := PtrPolicies 0;
     ListRequest_FilterFunc := Some FnListByQuery |}.

Definition qMemberAlice : Query := {[ "member" := ["alice"] ]}.
Definition qActionWrite : Query := {[ "action" := ["write"] ]}.
Definition qPage : Query := {[ "limit" := ["2"]; "offset" := ["1"] ]}.

Definition exDB : MemDB :=
  {| memRoles := {[ "/store/roles" := [r1; r2; r3; r4]; "/store/things" := [r1; r2; r3] ]};
     memPolicies := {[ "/store/policies" := [p1] ]};
     memKeys := [("/store/roles", "r1")] |}.

Definition exWorld : World := {| heap := exHeap; db := exDB; log := [] |}.

Definition rolesFactory : Factory ListRequest :=
  fun r ps h => (inr exRolesRequest, h).

Definition failingFactory {Req : Type} : Factory Req :=
  fun r ps h => (inl "malformed request", h).

Definition exRequest (q : Query) : Request := {| URL_Query := q; Body := "" |}.

Definition getFactory (key : string) : Factory GetRequest :=
  fun r ps h =>
    (inr {| GetRequest_Collection := "/store/roles"; GetRequest_Key := key;
            GetRequest_Value := OtherValue 0 |}, h).

Definition deleteFactory (key : string) : Factory DeleteRequest :=
  fun r ps h =>
    (inr {| DeleteRequest_Collection := "/store/roles"; DeleteRequest_Key := key |}, h).

Definition upsertFactory (key : string) : Factory UpsertRequest :=
  fun r ps h =>
    (inr {| UpsertRequest_Collection := "/store/roles"; UpsertRequest_Key := key;
            UpsertRequest_Value := OtherValue 0 |}, h).

(** A roles-typed destination under a collection name of another kind. *)
Definition exThingsRequest (f : option FuncRef) : ListRequest :=
  {| ListRequest_Collection := "/store/things";
     ListRequest_Value := PtrRoles 0;
     ListRequest_FilterFunc := f |}.

Definition thingsFactory (f : option FuncRef) : Factory ListRequest :=
  fun r ps h => (inr (exThingsRequest f), h).

(** A response of a handler: [h.h.WriteError], [h.h.Write] or
    [w.WriteHeader]. *)
Definition isResponse (e : Event) : bool :=
  match e with
  | EvWriteError _ | EvWrite _ | EvWriteHeader _ => true
  | _ => false
  end.

(** A [with...] method that gives back its receiver or nil. *)
Definition returnsReceiverOrNil {A : Type} (f : option A -> list string -> option A) : Prop :=
  forall (o : option A) (xs : list string), f o xs = o \/ f o xs = None.

(** More requests for the in-memory backend: a bound function that panics, a
    collection the backend does not have, a name that ends in [/], and a
    [*Roles] pointer that was never allocated. *)
Definition panickingFilter (n : nat) (l : ListRequest) (m : Query) (offset limit : Z) (h : Heap)
  : result (ListRequest * Heap) := Panicked (PanicMsg "filter failed").

Definition otherFilterFactory : Factory ListRequest :=
  fun r ps h => (inr (exThingsRequest (Some (FnOther 0))), h).

Definition exMissingRequest : ListRequest :=
  {| ListRequest_Collection := "/store/none";
     ListRequest_Value := PtrRoles 0;
     ListRequest_FilterFunc := Some FnListByQuery |}.

Definition missingFactory : Factory ListRequest :=
  fun r ps h => (inr exMissingRequest, h).

Definition exSlashRequest : ListRequest :=
  {| ListRequest_Collection := "/store/roles/";
     ListRequest_Value := PtrRoles 0;
     ListRequest_FilterFunc := Some FnListByQuery |}.

Definition slashFactory : Factory ListRequest :=
  fun r ps h => (inr exSlashRequest, h).

Definition exNilRequest : ListRequest :=
  {| ListRequest_Collection := "/store/roles";
     ListRequest_Value := PtrRoles 7;
     ListRequest_FilterFunc := Some FnListByQuery |}.

Definition qMemberAlicePaged : Query :=
  {[ "member" := ["alice"]; "limit" := ["5"]; "page_token" := ["x"] ]}.

(** The reading of C2 that takes the result of the routine itself: after
    [ListByQuery], the sequence the request points to holds exactly the roles
    of [roles] that pass the member and id filters of the query, whatever
    the limit and the offset are. *)
Definition resultIsPassingRoles (roles : list SpecRole) (m : Query) (offset limit : Z)
    (l : ListRequest) (h : Heap) : Prop :=
  forall l' h' p' res,
    ListByQuery l m offset limit h = Returned (l', h') ->
    ListRequest_Value l' = PtrRoles p' ->
    rolesAt h' !! p' = Some res ->
    forall r, r ∈ res <-> r ∈ roles /\ rolePasses (mapIndex m "member") (mapIndex m "id") r.

(** The same reading of C3, for policies. *)
Definition resultIsPassingPolicies (policies : list SpecPolicy) (m : Query) (offset limit : Z)
    (l : ListRequest) (h : Heap) : Prop :=
  forall l' h' p' res,
    ListByQuery l m offset limit h = Returned (l', h') ->
    ListRequest_Value l' = PtrPolicies p' ->
    policiesAt h' !! p' = Some res ->
    forall p, p ∈ res <->
      p ∈ policies /\
      policyPasses (mapIndex m "subject") (mapIndex m "resource")
                   (mapIndex m "action") (mapIndex m "id") p.

(** [pagination.Index(limit, offset, n)] does not end beyond [n]. Within
    that bound [res[start:end]] never reaches the capacity slack of [res],
    which the lists of this embedding do not have. *)
Definition endsWithin `{Pagination} (limit offset n : Z) : Prop :=
  (Index limit offset n).2 <= n.

(** Two roles with the member alice, and two policies with the action read. *)
Definition exHeapAlice : Heap :=
  {| rolesAt := {[ 0%nat := [r1; r3] ]}; policiesAt := ∅ |}.

Definition p2 : SpecPolicy :=
  {| Policy_ID := "p2"; Policy_Subjects := ["s2"]; Policy_Resources := ["res1"; "res2"];
     Policy_Actions := ["read"; "write"] |}.

Definition exHeapRead : Heap :=
  {| rolesAt := ∅; policiesAt := {[ 0%nat := [p1; p2] ]} |}.

Definition qActionRead : Query := {[ "action" := ["read"] ]}.

(** Membership of an event in an explicit list of events. *)
Ltac in_events :=
  rewrite ?elem_of_cons, ?elem_of_nil; intuition congruence.

(** * Properties *)

(** ** Go built-ins *)

Lemma Split_nonempty s sep : Split s sep <> [].
Proof.
  destruct s as [|c rest]; simpl; [done|].
  destruct (Ascii.eqb c sep); [done|].
  by destruct (Split rest sep).
Qed.

Lemma lookup_last_default {A : Type} (l : list A) (d : A) :
  l <> [] -> l !! (length l - 1)%nat = Some (List.last l d).
Proof.
  induction l as [|x xs IH]; [done|]. intros _.
  destruct xs as [|y ys]; [done|].
  transitivity ((y :: ys) !! (length (y :: ys) - 1)%nat); [|by apply IH].
  simpl. by rewrite Nat.sub_0_r.
Qed.

(** [split[len(split)-1]] never fails: it is the last piece. *)
Lemma Split_last_lookup s sep :
  Split s sep !! (length (Split s sep) - 1)%nat = Some (List.last (Split s sep) EmptyString).
Proof. apply lookup_last_default, Split_nonempty. Qed.

(** A string without the separator is a single piece. *)
Lemma Split_no_sep s sep :
  (forall c, c ∈ String.list_ascii_of_string s -> c <> sep) -> Split s sep = [s].
Proof.
  induction s as [|c rest IH]; simpl; intros Hno; [done|].
  destruct (Ascii.eqb_spec c sep) as [->|_].
  - exfalso. apply (Hno sep); [left | done].
  - rewrite IH; [done|]. intros c' Hc'. apply Hno. by right.
Qed.

(** Splitting distributes over a separator. *)
Lemma Split_app_sep pre s sep :
  Split (pre +:+ String sep s) sep = Split pre sep ++ Split s sep.
Proof.
  induction pre as [|c pre IH]; simpl.
  - by rewrite Ascii.eqb_refl.
  - destruct (Ascii.eqb c sep); [by rewrite IH|].
    rewrite IH. pose proof (Split_nonempty pre sep).
    by destruct (Split pre sep).
Qed.

Lemma last_app_nonempty {A : Type} (xs ys : list A) (d : A) :
  ys <> [] -> List.last (xs ++ ys) d = List.last ys d.
Proof.
  intros Hne. induction xs as [|x xs IH]; [done|].
  simpl. rewrite IH. destruct (xs ++ ys) eqn:E; [|done].
  by apply app_eq_nil in E as [_ ->].
Qed.

(** The kind of a collection is what follows its last [/]. *)
Lemma collectionType_last_segment pre seg :
  (forall c, c ∈ String.list_ascii_of_string seg -> c <> "/"%char) ->
  collectionType (pre +:+ String "/" seg) = seg /\ collectionType seg = seg.
Proof.
  intros Hno. unfold collectionType.
  rewrite Split_app_sep, last_app_nonempty by apply Split_nonempty.
  by rewrite Split_no_sep.
Qed.

Lemma reslice_in_bounds {A : Type} (xs : list A) (start end_ : Z) :
  0 <= start -> start <= end_ -> end_ <= Z.of_nat (length xs) ->
  reslice xs start end_ = Some (take (Z.to_nat (end_ - start)) (drop (Z.to_nat start) xs)).
Proof. intros. unfold reslice. by rewrite bool_decide_eq_true_2. Qed.

Lemma reslice_Some_inv {A : Type} (xs ys : list A) (start end_ : Z) :
  reslice xs start end_ = Some ys ->
  (0 <= start /\ start <= end_ /\ end_ <= Z.of_nat (length xs)) /\
  ys = take (Z.to_nat (end_ - start)) (drop (Z.to_nat start) xs) /\
  Z.of_nat (length ys) = end_ - start.
Proof.
  unfold reslice. case_bool_decide as Hb; [|done].
  intros [= <-]. split; [done|]. split; [done|].
  rewrite length_take, length_drop. lia.
Qed.

Lemma reslice_whole {A : Type} (xs : list A) :
  reslice xs 0 (Z.of_nat (length xs)) = Some xs.
Proof.
  rewrite reslice_in_bounds by lia. simpl.
  rewrite Z.sub_0_r, Nat2Z.id. by rewrite firstn_all.
Qed.

Lemma reslice_nil {A : Type} (start end_ : Z) (ys : list A) :
  reslice [] start end_ = Some ys -> ys = [].
Proof.
  intros (_ & -> & _)%reslice_Some_inv. by rewrite drop_nil, take_nil.
Qed.

(** ** ListByQuery, for any [Role], [Policy], [with...] methods and [Index] *)

Section FilteringFacts.
Context `{StorageTypes} `{Pagination}.

(** The loop appends to [res], in the order of [*val], what the chained
    [with...] calls return for each element. *)
Lemma rolesLoop_omap (val : list Role) (m : Query) (res : list Role) :
  rolesLoop val m res =
  res ++ omap (fun role =>
                 Role_withIDs (Role_withMembers (Some role) (mapIndex m "member"))
                              (mapIndex m "id")) val.
Proof.
  revert res. induction val as [|role rest IH]; intros res; simpl.
  - by rewrite app_nil_r.
  - destruct (Role_withIDs _ _) as [r|]; rewrite IH; [|done].
    by rewrite <- app_assoc.
Qed.

Lemma policiesLoop_omap (val : list Policy) (m : Query) (res : list Policy) :
  policiesLoop val m res =
  res ++ omap (fun policy =>
                 Policy_withIDs
                   (Policy_withActions
                      (Policy_withResources
                         (Policy_withSubjects (Some policy) (mapIndex m "subject"))
                         (mapIndex m "resource"))
                      (mapIndex m "action"))
                   (mapIndex m "id")) val.
Proof.
  revert res. induction val as [|policy rest IH]; intros res; simpl.
  - by rewrite app_nil_r.
  - destruct (Policy_withIDs _ _) as [p|]; rewrite IH; [|done].
    by rewrite <- app_assoc.
Qed.

Lemma window_valid {A : Type} (limit offset : Z) (res : list A) :
  validWindow limit offset (Z.of_nat (length res)) ->
  exists out, window limit offset res = Some out /\
    Z.of_nat (length out) =
      (Index limit offset (Z.of_nat (length res))).2 - (Index limit offset (Z.of_nat (length res))).1.
Proof.
  unfold validWindow, window.
  destruct (Index limit offset (Z.of_nat (length res))) as [start end_]; simpl.
  intros (H1 & H2 & H3). rewrite reslice_in_bounds by done.
  eexists; split; [done|]. rewrite length_take, length_drop. lia.
Qed.

Lemma window_nil {A : Type} (limit offset : Z) (out : list A) :
  window limit offset (@nil A) = Some out -> out = [].
Proof. unfold window. destruct (Index _ _ _). apply reslice_nil. Qed.

(** What [ListByQuery] does to a [*Roles] value that points to [roles]. *)
Lemma ListByQuery_roles l m offset limit h p roles :
  ListRequest_Value l = PtrRoles p ->
  rolesAt h !! p = Some roles ->
  ListByQuery l m offset limit h =
    match window limit offset (rolesLoop roles m []) with
    | Some res =>
        let p' := fresh (dom (rolesAt h)) in
        Returned (set_Value l (PtrRoles p'),
                  {| rolesAt := <[p' := res]> (rolesAt h); policiesAt := policiesAt h |})
    | None => Panicked SliceBounds
    end.
Proof. intros Hv Hp. unfold ListByQuery. rewrite Hv, Hp. by destruct (window _ _ _). Qed.

Lemma ListByQuery_policies l m offset limit h p policies :
  ListRequest_Value l = PtrPolicies p ->
  policiesAt h !! p = Some policies ->
  ListByQuery l m offset limit h =
    match window limit offset (policiesLoop policies m []) with
    | Some res =>
        let p' := fresh (dom (policiesAt h)) in
        Returned (set_Value l (PtrPolicies p'),
                  {| rolesAt := rolesAt h; policiesAt := <[p' := res]> (policiesAt h) |})
    | None => Panicked SliceBounds
    end.
Proof. intros Hv Hp. unfold ListByQuery. rewrite Hv, Hp. by destruct (window _ _ _). Qed.

(** The [default] case of the type switch. *)
Lemma ListByQuery_default l m offset limit h :
  (forall p, ListRequest_Value l <> PtrRoles p) ->
  (forall p, ListRequest_Value l <> PtrPolicies p) ->
  ListByQuery l m offset limit h =
    Panicked (PanicMsg "storage:unable to cast list request to a known type!").
Proof.
  intros Hr Hp. unfold ListByQuery.
  destruct (ListRequest_Value l) as [p|p|tag|]; try done.
  - by destruct (Hr p).
  - by destruct (Hp p).
Qed.

Lemma fresh_lookup_None {V : Type} (g : gmap addr V) : g !! fresh (dom g) = None.
Proof. apply not_elem_of_dom, is_fresh. Qed.

End FilteringFacts.

Section ListByQueryProperties.
Context `{StorageTypes} `{Pagination}.

(** C5. When the [Value] of the request is neither a [*Roles] nor a
    [*Policies], [ListByQuery] panics with its "unable to cast" message,
    whatever the query, the offset, the limit and the heap are; it does not
    return, so it produces no result sequence at all. *)
Theorem ListByQuery_unknown_variant_panics l m offset limit h :
  (forall p, ListRequest_Value l <> PtrRoles p) ->
  (forall p, ListRequest_Value l <> PtrPolicies p) ->
  ListByQuery l m offset limit h =
    Panicked (PanicMsg "storage:unable to cast list request to a known type!") /\
  (forall l' h', ListByQuery l m offset limit h <> Returned (l', h')).
Proof.
  intros Hr Hp. rewrite (ListByQuery_default l m offset limit h Hr Hp).
  split; [done|]. by intros l' h'.
Qed.

(** C10. [ListByQuery] returns on every [*Roles] and every [*Policies] value
    that points to a sequence, for every query, limit and offset for which
    [pagination.Index] gives a window with [0 <= start <= end <= n], [n]
    being the number of records that pass the filters: the re-slice is in
    bounds, the request's [Value] then points to the windowed result, and
    that result is empty when the collection is empty or no record passes. *)
Theorem ListByQuery_total l m offset limit h :
  (forall p roles,
      ListRequest_Value l = PtrRoles p ->
      rolesAt h !! p = Some roles ->
      validWindow limit offset (Z.of_nat (length (rolesLoop roles m []))) ->
      exists res p' h',
        window limit offset (rolesLoop roles m []) = Some res /\
        ListByQuery l m offset limit h = Returned (set_Value l (PtrRoles p'), h') /\
        rolesAt h' !! p' = Some res /\
        (rolesLoop roles m [] = [] -> res = []) /\
        (roles = [] -> res = [])) /\
  (forall p policies,
      ListRequest_Value l = PtrPolicies p ->
      policiesAt h !! p = Some policies ->
      validWindow limit offset (Z.of_nat (length (policiesLoop policies m []))) ->
      exists res p' h',
        window limit offset (policiesLoop policies m []) = Some res /\
        ListByQuery l m offset limit h = Returned (set_Value l (PtrPolicies p'), h') /\
        policiesAt h' !! p' = Some res /\
        (policiesLoop policies m [] = [] -> res = []) /\
        (policies = [] -> res = [])).
Proof.
  split.
  - intros p roles Hv Hp Hw.
    destruct (window_valid _ _ _ Hw) as (res & Hres & _).
    exists res, (fresh (dom (rolesAt h))),
      {| rolesAt := <[fresh (dom (rolesAt h)) := res]> (rolesAt h); policiesAt := policiesAt h |}.
    split; [done|].
    rewrite (ListByQuery_roles _ _ _ _ _ _ _ Hv Hp), Hres. simpl.
    split; [done|]. split; [by rewrite lookup_insert_eq|].
    split.
    + intros E. rewrite E in Hres. by apply window_nil in Hres.
    + intros ->. simpl in Hres. by apply window_nil in Hres.
  - intros p policies Hv Hp Hw.
    destruct (window_valid _ _ _ Hw) as (res & Hres & _).
    exists res, (fresh (dom (policiesAt h))),
      {| rolesAt := rolesAt h;
         policiesAt := <[fresh (dom (policiesAt h)) := res]> (policiesAt h) |}.
    split; [done|].
    rewrite (ListByQuery_policies _ _ _ _ _ _ _ Hv Hp), Hres. simpl.
    split; [done|]. split; [by rewrite lookup_insert_eq|].
    split.
    + intros E. rewrite E in Hres. by apply window_nil in Hres.
    + intros ->. simpl in Hres. by apply window_nil in Hres.
Qed.

(** C6, as the code has it. [ListByQuery] assigns the field [l.Value] of the
    request: when it returns, only that field of the request has changed, it
    holds a pointer that was not allocated before (so it differs from every
    pointer into the old heap), the cell it points to holds the filtered,
    windowed result, and every collection of the old heap, the one [Value]
    referenced before included, is unchanged. *)
Theorem ListByQuery_redirects_Value l m offset limit h l' h' :
  ListByQuery l m offset limit h = Returned (l', h') ->
  ListRequest_Collection l' = ListRequest_Collection l /\
  ListRequest_FilterFunc l' = ListRequest_FilterFunc l /\
  (forall q roles, rolesAt h !! q = Some roles -> rolesAt h' !! q = Some roles) /\
  (forall q policies, policiesAt h !! q = Some policies -> policiesAt h' !! q = Some policies) /\
  match ListRequest_Value l with
  | PtrRoles p =>
      exists roles res p',
        rolesAt h !! p = Some roles /\
        window limit offset (rolesLoop roles m []) = Some res /\
        ListRequest_Value l' = PtrRoles p' /\
        rolesAt h !! p' = None /\ p' <> p /\
        rolesAt h' !! p' = Some res /\
        rolesAt h' !! p = Some roles
  | PtrPolicies p =>
      exists policies res p',
        policiesAt h !! p = Some policies /\
        window limit offset (policiesLoop policies m []) = Some res /\
        ListRequest_Value l' = PtrPolicies p' /\
        policiesAt h !! p' = None /\ p' <> p /\
        policiesAt h' !! p' = Some res /\
        policiesAt h' !! p = Some policies
  | OtherValue _ | NilInterface => False
  end.
Proof.
  unfold ListByQuery.
  destruct (ListRequest_Value l) as [p|p|tag|] eqn:Hv; try done.
  - destruct (rolesAt h !! p) as [roles|] eqn:Hp; [|done].
    destruct (window _ _ _) as [res|] eqn:Hres; [|done].
    simpl. intros [= <- <-]. simpl.
    pose proof (fresh_lookup_None (rolesAt h)) as Hf.
    assert (fresh (dom (rolesAt h)) <> p) as Hne by congruence.
    repeat split; try done.
    + intros q roles' Hq. rewrite lookup_insert_ne; [done|congruence].
    + exists roles, res, (fresh (dom (rolesAt h))).
      repeat split; try done.
      * by rewrite lookup_insert_eq.
      * by rewrite lookup_insert_ne.
  - destruct (policiesAt h !! p) as [policies|] eqn:Hp; [|done].
    destruct (window _ _ _) as [res|] eqn:Hres; [|done].
    simpl. intros [= <- <-]. simpl.
    pose proof (fresh_lookup_None (policiesAt h)) as Hf.
    assert (fresh (dom (policiesAt h)) <> p) as Hne by congruence.
    repeat split; try done.
    + intros q policies' Hq. rewrite lookup_insert_ne; [done|congruence].
    + exists policies, res, (fresh (dom (policiesAt h))).
      repeat split; try done.
      * by rewrite lookup_insert_eq.
      * by rewrite lookup_insert_ne.
Qed.

End ListByQueryProperties.

Lemma ListByQuery_unknown_variant_panics_witness :
  ListByQuery (set_Value exRolesRequest (OtherValue 7)) qMemberAlice 0 10 exHeap =
    Panicked (PanicMsg "storage:unable to cast list request to a known type!") /\
  (forall l' h',
      ListByQuery (set_Value exRolesRequest (OtherValue 7)) qMemberAlice 0 10 exHeap
      <> Returned (l', h')).
Proof.
  apply ListByQuery_unknown_variant_panics; intros p; simpl; discriminate.
Defined.

Lemma ListByQuery_total_witness :
  exists res p' h',
    window 10 0 (rolesLoop [r1; r2] qMemberAlice []) = Some res /\
    ListByQuery exRolesRequest qMemberAlice 0 10 exHeap
      = Returned (set_Value exRolesRequest (PtrRoles p'), h') /\
    rolesAt h' !! p' = Some res /\
    (rolesLoop [r1; r2] qMemberAlice [] = [] -> res = []) /\
    ([r1; r2] = [] -> res = []).
Proof.
  apply (proj1 (ListByQuery_total exRolesRequest qMemberAlice 0 10 exHeap) 0%nat [r1; r2]).
  - reflexivity.
  - reflexivity.
  - unfold validWindow. vm_compute. repeat split; discriminate.
Defined.

(** On the roles of the specification's example and the query [member=alice],
    the request ends up pointing to a new collection [[r1]]; the collection
    it pointed to still holds [[r1; r2]]. *)
Lemma ListByQuery_example_run :
  ListByQuery exRolesRequest qMemberAlice 0 10 exHeap =
    Returned (set_Value exRolesRequest (PtrRoles 1),
              {| rolesAt := {[ 0%nat := [r1; r2]; 1%nat := [r1] ]};
                 policiesAt := {[ 0%nat := [p1] ]} |}).
Proof. vm_compute. reflexivity. Qed.

(** C6, as stated, fails: after the call the collection referenced before
    does not hold the result. *)
Lemma ListByQuery_not_in_place :
  ~ filtersInPlace exRolesRequest qMemberAlice 0 10 exHeap.
Proof.
  intros Hc. specialize (Hc _ _ ListByQuery_example_run).
  vm_compute in Hc. discriminate Hc.
Qed.

Lemma ListByQuery_redirects_Value_witness :
  exists roles res p',
    rolesAt exHeap !! 0%nat = Some roles /\
    window 10 0 (rolesLoop roles qMemberAlice []) = Some res /\
    PtrRoles 1 = PtrRoles p' /\
    rolesAt exHeap !! p' = None /\ p' <> 0%nat /\
    ({[ 0%nat := [r1; r2]; 1%nat := [r1] ]} : gmap addr (list SpecRole)) !! p' = Some res /\
    ({[ 0%nat := [r1; r2]; 1%nat := [r1] ]} : gmap addr (list SpecRole)) !! 0%nat = Some roles.
Proof.
  refine (proj2 (proj2 (proj2 (proj2
    (ListByQuery_redirects_Value exRolesRequest qMemberAlice 0 10 exHeap
       (set_Value exRolesRequest (PtrRoles 1))
       {| rolesAt := {[ 0%nat := [r1; r2]; 1%nat := [r1] ]};
          policiesAt := {[ 0%nat := [p1] ]} |} _))))).
  vm_compute. reflexivity.
Defined.

(** ** The handlers *)

Lemma mapHas_is_Some (q : Query) (k : string) : mapHas q k = true <-> is_Some (q !! k).
Proof.
  unfold mapHas. destruct (q !! k) as [vs|]; split; intros Hs; try done.
Qed.

(** [isFilter] says that a recognized dimension is a key of the query. *)
Lemma isFilter_true_iff (collection : string) (q : Query) :
  isFilter collection q = true <->
  exists k, k ∈ recognizedDimensions (collectionType collection) /\ is_Some (q !! k).
Proof.
  unfold isFilter. rewrite existsb_exists. split.
  - intros (k & Hin & Hk). exists k. by rewrite list_elem_of_In, <- mapHas_is_Some.
  - intros (k & Hin & Hk). exists k. by rewrite <- list_elem_of_In, mapHas_is_Some.
Qed.

Lemma recognizedDimensions_not_id (kind : string) : "id" ∉ recognizedDimensions kind.
Proof.
  unfold recognizedDimensions.
  destruct (String.eqb kind "policies"); [|destruct (String.eqb kind "roles")];
    rewrite ?not_elem_of_cons; repeat split; try done; apply not_elem_of_nil.
Qed.

Section HandlerProperties.
Context `{StorageTypes} `{Pagination} `{!Manager}.

Variable otherFilterFunc :
  nat -> ListRequest -> Query -> Z -> Z -> Heap -> result (ListRequest * Heap).

Lemma backend_run (e : Event) (f : Heap -> DB -> option error * Heap * DB) (w : World)
    (err : option error) (h : Heap) (d : DB) :
  f (heap w) (db w) = (err, h, d) ->
  backend e f w = (err, {| heap := h; db := d; log := log w ++ [e] |}).
Proof. intros E. unfold backend. by rewrite E. Qed.

Lemma backend_log (e : Event) (f : Heap -> DB -> option error * Heap * DB) (w : World) :
  log (backend e f w).2 = log w ++ [e].
Proof. unfold backend. by destruct (f (heap w) (db w)) as [[err h] d]. Qed.

(** The nested tests of lines 128-173 choose the backend call by [isFilter]. *)
Lemma fetch_isFilter (l : ListRequest) (q : Query) (limit offset : Z) (w : World) :
  fetch l q (collectionType (ListRequest_Collection l)) limit offset w =
  if isFilter (ListRequest_Collection l) q
  then call_ListAll (ListRequest_Collection l) (ListRequest_Value l) w
  else call_List (ListRequest_Collection l) (ListRequest_Value l) limit offset w.
Proof.
  unfold fetch, isFilter, recognizedDimensions.
  destruct (String.eqb (collectionType (ListRequest_Collection l)) "policies").
  - simpl. by destruct (mapHas q "action"), (mapHas q "subject"), (mapHas q "resource").
  - destruct (String.eqb (collectionType (ListRequest_Collection l)) "roles"); [|done].
    simpl. by destruct (mapHas q "member").
Qed.

(** [Handler.List] once the factory has produced the request [l]. *)
Lemma Handler_List_run factory r ps w l h1 limit offset :
  factory r ps (heap w) = (inr l, h1) ->
  Parse r 100 0 500 = (limit, offset) ->
  Handler_List otherFilterFunc factory r ps w =
    match fetch l (URL_Query r) (collectionType (ListRequest_Collection l)) limit offset
                (setHeap w h1) with
    | (Some err, w2) => (emit (EvWriteError err) w2, None)
    | (None, w2) =>
        match ListRequest_Filter otherFilterFunc l (URL_Query r) offset limit (heap w2) with
        | Panicked c => (w2, Some c)
        | Returned (l', h2) => (emit (EvWrite (ListRequest_Value l')) (setHeap w2 h2), None)
        end
    end.
Proof.
  intros Hf Hp. unfold Handler_List. rewrite Hf, Hp, Split_last_lookup.
  fold (collectionType (ListRequest_Collection l)).
  destruct (fetch _ _ _ _ _ _) as [[err|] w2]; [done|].
  by destruct (ListRequest_Filter _ _ _ _ _ _) as [[l' h2]|c].
Qed.

(** C1. Once the factory has produced the request, [Handler.List] makes
    exactly one backend call: [ListAll] if a recognized filter dimension of
    the collection's kind is a key of the query ("action", "subject" or
    "resource" for "policies", "member" for "roles", none for another kind),
    and [List] with the parsed limit and offset otherwise. A query whose only
    key is "id" takes the [List] call. *)
Theorem Handler_List_fetch_choice factory r ps w l h1 limit offset :
  factory r ps (heap w) = (inr l, h1) ->
  Parse r 100 0 500 = (limit, offset) ->
  let c := ListRequest_Collection l in
  let v := ListRequest_Value l in
  let q := URL_Query r in
  (exists evs,
      addedTo (log w) (log (Handler_List otherFilterFunc factory r ps w).1) evs /\
      List.filter isBackendCall evs =
        [if isFilter c q then CallListAll c v else CallList c v limit offset] /\
      (CallListAll c v ∈ evs <-> isFilter c q = true) /\
      (CallList c v limit offset ∈ evs <-> isFilter c q = false)) /\
  (isFilter c q = true <->
   exists k, k ∈ recognizedDimensions (collectionType c) /\ is_Some (q !! k)) /\
  ((forall k, is_Some (q !! k) -> k = "id") -> isFilter c q = false).
Proof.
  intros Hf Hp c v q. split; [|split].
  - rewrite (Handler_List_run _ _ _ _ _ _ _ _ Hf Hp), fetch_isFilter.
    fold c v q. unfold call_ListAll, call_List, backend, addedTo. simpl.
    destruct (isFilter c q).
    + destruct (Manager_ListAll c v h1 (db w)) as [[[err|] h2] d2]; simpl.
      * eexists. split; [by rewrite <- app_assoc|]. simpl. split; [done|].
        in_events.
      * destruct (ListRequest_Filter _ _ _ _ _ _) as [[l' h3]|pc]; simpl.
        -- eexists. split; [by rewrite <- app_assoc|]. simpl. split; [done|].
           in_events.
        -- eexists. split; [done|]. simpl. split; [done|].
           in_events.
    + destruct (Manager_List c v limit offset h1 (db w)) as [[[err|] h2] d2]; simpl.
      * eexists. split; [by rewrite <- app_assoc|]. simpl. split; [done|].
        in_events.
      * destruct (ListRequest_Filter _ _ _ _ _ _) as [[l' h3]|pc]; simpl.
        -- eexists. split; [by rewrite <- app_assoc|]. simpl. split; [done|].
           in_events.
        -- eexists. split; [done|]. simpl. split; [done|].
           in_events.
  - apply isFilter_true_iff.
  - intros Hid. apply not_true_iff_false. rewrite isFilter_true_iff.
    intros (k & Hk & Hs). apply Hid in Hs. subst k.
    by apply recognizedDimensions_not_id in Hk.
Qed.

Lemma Handler_Get_cases (factory : Factory GetRequest) r ps w :
  Handler_Get factory r ps w =
  match factory r ps (heap w) with
  | (inl err, h1) => {| heap := h1; db := db w; log := log w ++ [EvWriteError err] |}
  | (inr d, h1) =>
      let call := CallGet (GetRequest_Collection d) (GetRequest_Key d) (GetRequest_Value d) in
      match Manager_Get (GetRequest_Collection d) (GetRequest_Key d) (GetRequest_Value d)
                        h1 (db w) with
      | (Some err, h2, d2) => {| heap := h2; db := d2; log := log w ++ [call; EvWriteError err] |}
      | (None, h2, d2) =>
          {| heap := h2; db := d2; log := log w ++ [call; EvWrite (GetRequest_Value d)] |}
      end
  end.
Proof.
  unfold Handler_Get, call_Get, backend, emit, setHeap.
  destruct (factory r ps (heap w)) as [[err|d] h1]; simpl; [done|].
  destruct (Manager_Get _ _ _ _ _) as [[[err|] h2] d2]; simpl; by rewrite <- app_assoc.
Qed.

Lemma Handler_Delete_cases (factory : Factory DeleteRequest) r ps w :
  Handler_Delete factory r ps w =
  match factory r ps (heap w) with
  | (inl err, h1) => {| heap := h1; db := db w; log := log w ++ [EvWriteError err] |}
  | (inr d, h1) =>
      let call := CallDelete (DeleteRequest_Collection d) (DeleteRequest_Key d) in
      match Manager_Delete (DeleteRequest_Collection d) (DeleteRequest_Key d) h1 (db w) with
      | (Some err, h2, d2) => {| heap := h2; db := d2; log := log w ++ [call; EvWriteError err] |}
      | (None, h2, d2) =>
          {| heap := h2; db := d2; log := log w ++ [call; EvWriteHeader StatusNoContent] |}
      end
  end.
Proof.
  unfold Handler_Delete, call_Delete, backend, emit, setHeap.
  destruct (factory r ps (heap w)) as [[err|d] h1]; simpl; [done|].
  destruct (Manager_Delete _ _ _ _) as [[[err|] h2] d2]; simpl; by rewrite <- app_assoc.
Qed.

Lemma Handler_Upsert_cases (factory : Factory UpsertRequest) r ps w :
  Handler_Upsert factory r ps w =
  match factory r ps (heap w) with
  | (inl err, h1) => {| heap := h1; db := db w; log := log w ++ [EvWriteError err] |}
  | (inr u, h1) =>
      let call :=
        CallUpsert (UpsertRequest_Collection u) (UpsertRequest_Key u) (UpsertRequest_Value u) in
      match Manager_Upsert (UpsertRequest_Collection u) (UpsertRequest_Key u)
                           (UpsertRequest_Value u) h1 (db w) with
      | (Some err, h2, d2) => {| heap := h2; db := d2; log := log w ++ [call; EvWriteError err] |}
      | (None, h2, d2) =>
          {| heap := h2; db := d2; log := log w ++ [call; EvWrite (UpsertRequest_Value u)] |}
      end
  end.
Proof.
  unfold Handler_Upsert, call_Upsert, backend, emit, setHeap.
  destruct (factory r ps (heap w)) as [[err|u] h1]; simpl; [done|].
  destruct (Manager_Upsert _ _ _ _ _) as [[[err|] h2] d2]; simpl; by rewrite <- app_assoc.
Qed.

(** C7. For Get, Delete and Upsert alike: when the factory fails, the only
    thing the handler does is write that error, and the backend is not
    called; when the backend call fails, the handler writes that error after
    the call and writes no success response; when both succeed, Get and
    Upsert write the request's [Value] (as the backend left it) and Delete
    writes the header 204 and no body. There is one backend call at most. *)
Theorem handlers_short_circuit r ps w :
  (forall factory : Factory GetRequest,
      (forall err h1,
          factory r ps (heap w) = (inl err, h1) ->
          Handler_Get factory r ps w =
            {| heap := h1; db := db w; log := log w ++ [EvWriteError err] |}) /\
      (forall d h1 err h2 d2,
          factory r ps (heap w) = (inr d, h1) ->
          Manager_Get (GetRequest_Collection d) (GetRequest_Key d) (GetRequest_Value d)
                      h1 (db w) = (Some err, h2, d2) ->
          Handler_Get factory r ps w =
            {| heap := h2; db := d2;
               log := log w ++ [CallGet (GetRequest_Collection d) (GetRequest_Key d)
                                        (GetRequest_Value d);
                                EvWriteError err] |}) /\
      (forall d h1 h2 d2,
          factory r ps (heap w) = (inr d, h1) ->
          Manager_Get (GetRequest_Collection d) (GetRequest_Key d) (GetRequest_Value d)
                      h1 (db w) = (None, h2, d2) ->
          Handler_Get factory r ps w =
            {| heap := h2; db := d2;
               log := log w ++ [CallGet (GetRequest_Collection d) (GetRequest_Key d)
                                        (GetRequest_Value d);
                                EvWrite (GetRequest_Value d)] |})) /\
  (forall factory : Factory DeleteRequest,
      (forall err h1,
          factory r ps (heap w) = (inl err, h1) ->
          Handler_Delete factory r ps w =
            {| heap := h1; db := db w; log := log w ++ [EvWriteError err] |}) /\
      (forall d h1 err h2 d2,
          factory r ps (heap w) = (inr d, h1) ->
          Manager_Delete (DeleteRequest_Collection d) (DeleteRequest_Key d) h1 (db w)
            = (Some err, h2, d2) ->
          Handler_Delete factory r ps w =
            {| heap := h2; db := d2;
               log := log w ++ [CallDelete (DeleteRequest_Collection d) (DeleteRequest_Key d);
                                EvWriteError err] |}) /\
      (forall d h1 h2 d2,
          factory r ps (heap w) = (inr d, h1) ->
          Manager_Delete (DeleteRequest_Collection d) (DeleteRequest_Key d) h1 (db w)
            = (None, h2, d2) ->
          Handler_Delete factory r ps w =
            {| heap := h2; db := d2;
               log := log w ++ [CallDelete (DeleteRequest_Collection d) (DeleteRequest_Key d);
                                EvWriteHeader 204] |})) /\
  (forall factory : Factory UpsertRequest,
      (forall err h1,
          factory r ps (heap w) = (inl err, h1) ->
          Handler_Upsert factory r ps w =
            {| heap := h1; db := db w; log := log w ++ [EvWriteError err] |}) /\
      (forall u h1 err h2 d2,
          factory r ps (heap w) = (inr u, h1) ->
          Manager_Upsert (UpsertRequest_Collection u) (UpsertRequest_Key u)
                         (UpsertRequest_Value u) h1 (db w) = (Some err, h2, d2) ->
          Handler_Upsert factory r ps w =
            {| heap := h2; db := d2;
               log := log w ++ [CallUpsert (UpsertRequest_Collection u) (UpsertRequest_Key u)
                                           (UpsertRequest_Value u);
                                EvWriteError err] |}) /\
      (forall u h1 h2 d2,
          factory r ps (heap w) = (inr u, h1) ->
          Manager_Upsert (UpsertRequest_Collection u) (UpsertRequest_Key u)
                         (UpsertRequest_Value u) h1 (db w) = (None, h2, d2) ->
          Handler_Upsert factory r ps w =
            {| heap := h2; db := d2;
               log := log w ++ [CallUpsert (UpsertRequest_Collection u) (UpsertRequest_Key u)
                                           (UpsertRequest_Value u);
                                EvWrite (UpsertRequest_Value u)] |})).
Proof.
  split; [|split]; intros factory.
  - rewrite Handler_Get_cases. repeat split.
    + by intros err h1 ->.
    + by intros d h1 err h2 d2 -> ->.
    + by intros d h1 h2 d2 -> ->.
  - rewrite Handler_Delete_cases. repeat split.
    + by intros err h1 ->.
    + by intros d h1 err h2 d2 -> ->.
    + by intros d h1 h2 d2 -> ->.
  - rewrite Handler_Upsert_cases. repeat split.
    + by intros err h1 ->.
    + by intros u h1 err h2 d2 -> ->.
    + by intros u h1 h2 d2 -> ->.
Qed.

Lemma setHeap_heap (w : World) : setHeap w (heap w) = w.
Proof. by destruct w. Qed.

Lemma fetch_log l q limit offset w err w2 :
  fetch l q (collectionType (ListRequest_Collection l)) limit offset w = (err, w2) ->
  log w2 = log w ++ [if isFilter (ListRequest_Collection l) q
                     then CallListAll (ListRequest_Collection l) (ListRequest_Value l)
                     else CallList (ListRequest_Collection l) (ListRequest_Value l)
                                   limit offset].
Proof.
  rewrite fetch_isFilter. unfold call_ListAll, call_List. intros E.
  destruct (isFilter _ _).
  - pose proof (backend_log (CallListAll (ListRequest_Collection l) (ListRequest_Value l))
                  (Manager_ListAll (ListRequest_Collection l) (ListRequest_Value l)) w) as Hl.
    by rewrite E in Hl.
  - pose proof (backend_log (CallList (ListRequest_Collection l) (ListRequest_Value l)
                                      limit offset)
                  (Manager_List (ListRequest_Collection l) (ListRequest_Value l)
                                limit offset) w) as Hl.
    by rewrite E in Hl.
Qed.

(** With [ListByQuery] bound and a [Value] it does not know, [Handler.List]
    ends in the panic of [ListByQuery] once the fetch has succeeded: the
    backend call is all it has done, and no response is written. *)
Lemma Handler_List_unknown_variant factory r ps w l h1 limit offset w2 :
  factory r ps (heap w) = (inr l, h1) ->
  ListRequest_FilterFunc l = Some FnListByQuery ->
  Parse r 100 0 500 = (limit, offset) ->
  (forall p, ListRequest_Value l <> PtrRoles p) ->
  (forall p, ListRequest_Value l <> PtrPolicies p) ->
  fetch l (URL_Query r) (collectionType (ListRequest_Collection l)) limit offset
        (setHeap w h1) = (None, w2) ->
  Handler_List otherFilterFunc factory r ps w =
    (w2, Some (PanicMsg "storage:unable to cast list request to a known type!")) /\
  List.filter isSuccessWrite (log w2) = List.filter isSuccessWrite (log w).
Proof.
  intros Hf Hff Hp Hr Hpo Hfetch. split.
  - rewrite (Handler_List_run _ _ _ _ _ _ _ _ Hf Hp), Hfetch.
    unfold ListRequest_Filter. rewrite Hff. simpl.
    by rewrite (ListByQuery_default _ _ _ _ _ Hr Hpo).
  - rewrite (fetch_log _ _ _ _ _ _ _ Hfetch). simpl.
    rewrite List.filter_app. simpl.
    destruct (isFilter _ _); simpl; by rewrite app_nil_r.
Qed.

(** C4. On a [*Roles] or [*Policies] value, [ListByQuery] first builds the
    sequence of the records that pass, then asks [pagination.Index(limit,
    offset, len)] for [start, end] and stores the re-slice [res[start:end]].
    [Handler.List] runs it after every successful fetch with the limit and
    offset it parsed, on the [ListAll] path and on the [List] path alike: on
    the latter the backend call has been given the same limit and offset. *)
Theorem ListByQuery_windows_after_filtering :
  (forall l m offset limit h p roles start end_,
      ListRequest_Value l = PtrRoles p ->
      rolesAt h !! p = Some roles ->
      Index limit offset (Z.of_nat (length (rolesLoop roles m []))) = (start, end_) ->
      ListByQuery l m offset limit h =
        match reslice (rolesLoop roles m []) start end_ with
        | Some res =>
            Returned (set_Value l (PtrRoles (fresh (dom (rolesAt h)))),
                      {| rolesAt := <[fresh (dom (rolesAt h)) := res]> (rolesAt h);
                         policiesAt := policiesAt h |})
        | None => Panicked SliceBounds
        end) /\
  (forall l m offset limit h p policies start end_,
      ListRequest_Value l = PtrPolicies p ->
      policiesAt h !! p = Some policies ->
      Index limit offset (Z.of_nat (length (policiesLoop policies m []))) = (start, end_) ->
      ListByQuery l m offset limit h =
        match reslice (policiesLoop policies m []) start end_ with
        | Some res =>
            Returned (set_Value l (PtrPolicies (fresh (dom (policiesAt h)))),
                      {| rolesAt := rolesAt h;
                         policiesAt := <[fresh (dom (policiesAt h)) := res]> (policiesAt h) |})
        | None => Panicked SliceBounds
        end) /\
  (forall factory r ps w l h1 limit offset w2,
      factory r ps (heap w) = (inr l, h1) ->
      ListRequest_FilterFunc l = Some FnListByQuery ->
      Parse r 100 0 500 = (limit, offset) ->
      fetch l (URL_Query r) (collectionType (ListRequest_Collection l)) limit offset
            (setHeap w h1) = (None, w2) ->
      log w2 = log w ++ [if isFilter (ListRequest_Collection l) (URL_Query r)
                         then CallListAll (ListRequest_Collection l) (ListRequest_Value l)
                         else CallList (ListRequest_Collection l) (ListRequest_Value l)
                                       limit offset] /\
      Handler_List otherFilterFunc factory r ps w =
        match ListByQuery l (URL_Query r) offset limit (heap w2) with
        | Returned (l', h2) => (emit (EvWrite (ListRequest_Value l')) (setHeap w2 h2), None)
        | Panicked c => (w2, Some c)
        end).
Proof.
  split; [|split].
  - intros l m offset limit h p roles start end_ Hv Hp Hi.
    rewrite (ListByQuery_roles _ _ _ _ _ _ _ Hv Hp). unfold window. by rewrite Hi.
  - intros l m offset limit h p policies start end_ Hv Hp Hi.
    rewrite (ListByQuery_policies _ _ _ _ _ _ _ Hv Hp). unfold window. by rewrite Hi.
  - intros factory r ps w l h1 limit offset w2 Hf Hff Hp Hfetch. split.
    + by rewrite (fetch_log _ _ _ _ _ _ _ Hfetch).
    + rewrite (Handler_List_run _ _ _ _ _ _ _ _ Hf Hp), Hfetch.
      unfold ListRequest_Filter. rewrite Hff. simpl.
      by destruct (ListByQuery _ _ _ _ _) as [[l' h2]|c].
Qed.

(** C9. After every successful fetch, whatever the collection's name,
    [Handler.List] calls the function bound to [FilterFunc] and writes the
    [Value] the request holds afterwards (or panics as that function does);
    with no function bound, [Filter] returns the request and the heap as they
    are and the handler writes the [Value] the backend filled. [ListByQuery]
    looks at the variant of [Value] only: on a [*Roles] value (and likewise on
    a [*Policies] value) under any collection name it runs the member/id
    filter loop and the window. *)
Theorem Handler_List_applies_FilterFunc :
  (forall factory r ps w l h1 limit offset w2,
      factory r ps (heap w) = (inr l, h1) ->
      Parse r 100 0 500 = (limit, offset) ->
      fetch l (URL_Query r) (collectionType (ListRequest_Collection l)) limit offset
            (setHeap w h1) = (None, w2) ->
      Handler_List otherFilterFunc factory r ps w =
        match ListRequest_FilterFunc l with
        | Some f =>
            match callFilterFunc otherFilterFunc f l (URL_Query r) offset limit (heap w2) with
            | Returned (l', h2) => (emit (EvWrite (ListRequest_Value l')) (setHeap w2 h2), None)
            | Panicked c => (w2, Some c)
            end
        | None => (emit (EvWrite (ListRequest_Value l)) w2, None)
        end) /\
  (forall l m offset limit h,
      ListRequest_FilterFunc l = None ->
      ListRequest_Filter otherFilterFunc l m offset limit h = Returned (l, h)) /\
  (forall collection p roles m offset limit h,
      rolesAt h !! p = Some roles ->
      ListRequest_Filter otherFilterFunc
        {| ListRequest_Collection := collection; ListRequest_Value := PtrRoles p;
           ListRequest_FilterFunc := Some FnListByQuery |} m offset limit h =
      match window limit offset (rolesLoop roles m []) with
      | Some res =>
          Returned ({| ListRequest_Collection := collection;
                       ListRequest_Value := PtrRoles (fresh (dom (rolesAt h)));
                       ListRequest_FilterFunc := Some FnListByQuery |},
                    {| rolesAt := <[fresh (dom (rolesAt h)) := res]> (rolesAt h);
                       policiesAt := policiesAt h |})
      | None => Panicked SliceBounds
      end) /\
  (forall collection p policies m offset limit h,
      policiesAt h !! p = Some policies ->
      ListRequest_Filter otherFilterFunc
        {| ListRequest_Collection := collection; ListRequest_Value := PtrPolicies p;
           ListRequest_FilterFunc := Some FnListByQuery |} m offset limit h =
      match window limit offset (policiesLoop policies m []) with
      | Some res =>
          Returned ({| ListRequest_Collection := collection;
                       ListRequest_Value := PtrPolicies (fresh (dom (policiesAt h)));
                       ListRequest_FilterFunc := Some FnListByQuery |},
                    {| rolesAt := rolesAt h;
                       policiesAt := <[fresh (dom (policiesAt h)) := res]> (policiesAt h) |})
      | None => Panicked SliceBounds
      end).
Proof.
  split; [|split; [|split]].
  - intros factory r ps w l h1 limit offset w2 Hf Hp Hfetch.
    rewrite (Handler_List_run _ _ _ _ _ _ _ _ Hf Hp), Hfetch.
    unfold ListRequest_Filter. destruct (ListRequest_FilterFunc l) as [f|].
    + by destruct (callFilterFunc _ _ _ _ _ _ _) as [[l' h2]|c].
    + by rewrite setHeap_heap.
  - intros l m offset limit h Hn. unfold ListRequest_Filter. by rewrite Hn.
  - intros collection p roles m offset limit h Hp.
    unfold ListRequest_Filter. simpl.
    rewrite (ListByQuery_roles _ m offset limit h p roles); [|done|done].
    by destruct (window _ _ _).
  - intros collection p policies m offset limit h Hp.
    unfold ListRequest_Filter. simpl.
    rewrite (ListByQuery_policies _ m offset limit h p policies); [|done|done].
    by destruct (window _ _ _).
Qed.

End HandlerProperties.

(** ** The handlers on concrete requests *)

(** [GET /store/roles?member=alice]: one backend call, [ListAll]. *)
Lemma Handler_List_fetch_choice_witness :
  let c := "/store/roles" in
  let v := PtrRoles 0 in
  (exists evs,
      addedTo [] (log (Handler_List noOtherFilter rolesFactory
                         (exRequest qMemberAlice) [] exWorld).1) evs /\
      List.filter isBackendCall evs = [CallListAll c v] /\
      (CallListAll c v ∈ evs <-> true = true) /\
      (CallList c v 100 0 ∈ evs <-> true = false)) /\
  (isFilter c qMemberAlice = true <->
   exists k, k ∈ recognizedDimensions (collectionType c) /\ is_Some (qMemberAlice !! k)) /\
  ((forall k, is_Some (qMemberAlice !! k) -> k = "id") -> isFilter c qMemberAlice = false).
Proof.
  exact (Handler_List_fetch_choice noOtherFilter rolesFactory (exRequest qMemberAlice) []
           exWorld exRolesRequest exHeap 100 0 eq_refl eq_refl).
Defined.

(** Get with a failing factory, with a key the backend does not have, and
    with a key it has; Delete and Upsert of a key. *)
Lemma handlers_short_circuit_witness :
  Handler_Get failingFactory (exRequest ∅) [] exWorld =
    {| heap := exHeap; db := exDB; log := [EvWriteError "malformed request"] |} /\
  Handler_Get (getFactory "zz") (exRequest ∅) [] exWorld =
    {| heap := exHeap; db := exDB;
       log := [CallGet "/store/roles" "zz" (OtherValue 0); EvWriteError "not found"] |} /\
  Handler_Get (getFactory "r1") (exRequest ∅) [] exWorld =
    {| heap := exHeap; db := exDB;
       log := [CallGet "/store/roles" "r1" (OtherValue 0); EvWrite (OtherValue 0)] |} /\
  log (Handler_Delete (deleteFactory "r1") (exRequest ∅) [] exWorld) =
    [CallDelete "/store/roles" "r1"; EvWriteHeader 204] /\
  log (Handler_Upsert (upsertFactory "r9") (exRequest ∅) [] exWorld) =
    [CallUpsert "/store/roles" "r9" (OtherValue 0); EvWrite (OtherValue 0)].
Proof.
  destruct (handlers_short_circuit (exRequest ∅) [] exWorld) as (HG & HD & HU).
  destruct (HG failingFactory) as (HG1 & _ & _).
  destruct (HG (getFactory "zz")) as (_ & HG2 & _).
  destruct (HG (getFactory "r1")) as (_ & _ & HG3).
  destruct (HD (deleteFactory "r1")) as (_ & _ & HD3).
  destruct (HU (upsertFactory "r9")) as (_ & _ & HU3).
  split; [exact (HG1 _ _ eq_refl)|].
  split; [exact (HG2 _ _ _ _ _ eq_refl eq_refl)|].
  split; [exact (HG3 _ _ _ _ eq_refl eq_refl)|].
  split.
  - by rewrite (HD3 _ _ _ _ eq_refl eq_refl).
  - by rewrite (HU3 _ _ _ _ eq_refl eq_refl).
Defined.

(** [GET /store/roles?limit=2&offset=1] on the stored roles [r1 r2 r3 r4]:
    the backend fills the destination with its page [r2 r3]; the window of
    [ListByQuery], with the same limit and offset, leaves [r3]. *)
Lemma ListByQuery_windows_after_filtering_witness :
  exists w',
    Handler_List noOtherFilter rolesFactory (exRequest qPage) [] exWorld = (w', None) /\
    log w' = [CallList "/store/roles" (PtrRoles 0) 2 1; EvWrite (PtrRoles 1)] /\
    rolesAt (heap w') !! 0%nat = Some [r2; r3] /\
    rolesAt (heap w') !! 1%nat = Some [r3].
Proof.
  destruct ListByQuery_windows_after_filtering with (otherFilterFunc := noOtherFilter)
    as (_ & _ & Hrun).
  destruct (Hrun rolesFactory (exRequest qPage) [] exWorld exRolesRequest exHeap 2 1
              (call_List "/store/roles" (PtrRoles 0) 2 1 exWorld).2
              eq_refl eq_refl eq_refl eq_refl) as [_ ->].
  eexists. split; [vm_compute; reflexivity|]. vm_compute. done.
Defined.

(** A [*Roles] destination under the collection name [/store/things], with
    [ListByQuery] bound and the query [member=alice]: the backend is asked
    for a page, and the roles are filtered by member all the same. *)
Lemma Handler_List_applies_FilterFunc_witness :
  exists w',
    Handler_List noOtherFilter (thingsFactory (Some FnListByQuery))
      (exRequest qMemberAlice) [] exWorld = (w', None) /\
    log w' = [CallList "/store/things" (PtrRoles 0) 100 0; EvWrite (PtrRoles 1)] /\
    rolesAt (heap w') !! 0%nat = Some [r1; r2; r3] /\
    rolesAt (heap w') !! 1%nat = Some [r1; r3].
Proof.
  destruct Handler_List_applies_FilterFunc with (otherFilterFunc := noOtherFilter)
    as (Hrun & _).
  rewrite (Hrun (thingsFactory (Some FnListByQuery)) (exRequest qMemberAlice) [] exWorld
             (exThingsRequest (Some FnListByQuery)) exHeap 100 0
             (call_List "/store/things" (PtrRoles 0) 100 0 exWorld).2
             eq_refl eq_refl eq_refl).
  eexists. split; [vm_compute; reflexivity|]. vm_compute. done.
Defined.

(** ** Filtering with the [with...] methods and the window of the specification *)

Lemma hasString_elem_of (xs : list string) (x : string) : hasString xs x = true <-> x ∈ xs.
Proof.
  unfold hasString. rewrite existsb_exists. split.
  - intros (y & Hin & Heq). apply String.eqb_eq in Heq. subst y. by apply list_elem_of_In.
  - intros Hin. exists x. split; [by apply list_elem_of_In | apply String.eqb_refl].
Qed.

Lemma intersects_exists (xs wanted : list string) :
  intersects xs wanted = true <-> exists x, x ∈ xs /\ x ∈ wanted.
Proof.
  unfold intersects. rewrite existsb_exists. split.
  - intros (x & Hin & Hx). exists x. split; [by apply hasString_elem_of | by apply list_elem_of_In].
  - intros (x & Hx & Hin). exists x. split; [by apply list_elem_of_In | by apply hasString_elem_of].
Qed.

(** One dimension of the chain: the record is kept exactly when it passes. *)
Lemma dimension_keeps (wanted xs : list string) :
  match wanted with [] => true | _ :: _ => intersects xs wanted end = true
  <-> passesDimension wanted xs.
Proof.
  unfold passesDimension. destruct wanted as [|w ws].
  - split; [by left | done].
  - rewrite intersects_exists. split; [by right | by intros [?|?]].
Qed.

Lemma id_dimension_keeps (ids : list string) (id : string) :
  match ids with [] => true | _ :: _ => hasString ids id end = true
  <-> ids = [] \/ id ∈ ids.
Proof.
  destruct ids as [|i is_].
  - split; [by left | done].
  - rewrite hasString_elem_of. split; [by right | by intros [?|?]].
Qed.

Lemma withMembers_withIDs_spec (M I : list string) (r : SpecRole) :
  Role_withIDs (Role_withMembers (Some r) M) I =
  if decide (rolePasses M I r) then Some r else None.
Proof.
  change (roleWithIDs (withMembers (Some r) M) I =
          if decide (rolePasses M I r) then Some r else None).
  pose proof (dimension_keeps M (Role_Members r)) as HM.
  pose proof (id_dimension_keeps I (Role_ID r)) as HI.
  unfold rolePasses, passesDimension in *.
  destruct (decide _) as [[Hm Hi]|Hn].
  - apply HM in Hm. apply HI in Hi. unfold withMembers, roleWithIDs.
    destruct M; [|rewrite Hm]; destruct I; by rewrite ?Hi.
  - unfold withMembers, roleWithIDs.
    destruct M as [|x M'] eqn:EM.
    + destruct I as [|i I'] eqn:EI; [exfalso; apply Hn; by split; left|].
      destruct (hasString (i :: I') (Role_ID r)) eqn:Eh; [|done].
      exfalso. apply Hn. split; [by left | by apply HI].
    + destruct (intersects (Role_Members r) (x :: M')) eqn:Em; [|done].
      destruct I as [|i I'] eqn:EI.
      * exfalso. apply Hn. split; [by apply HM | by left].
      * destruct (hasString (i :: I') (Role_ID r)) eqn:Eh; [|done].
        exfalso. apply Hn. split; [by apply HM | by apply HI].
Qed.


Lemma keep_dimension {A : Type} (wanted xs : list string) (x : A) :
  match wanted with
  | [] => Some x
  | _ :: _ => if intersects xs wanted then Some x else None
  end = if decide (passesDimension wanted xs) then Some x else None.
Proof.
  pose proof (dimension_keeps wanted xs) as HK.
  destruct (decide _) as [Hd|Hd].
  - apply HK in Hd. destruct wanted; [done|]. by rewrite Hd.
  - destruct wanted as [|w ws]; [exfalso; apply Hd; by left|].
    destruct (intersects xs (w :: ws)) eqn:E; [|done].
    exfalso. by apply Hd, HK.
Qed.

Lemma keep_id {A : Type} (ids : list string) (id : string) (x : A) :
  match ids with
  | [] => Some x
  | _ :: _ => if hasString ids id then Some x else None
  end = if decide (passesDimension ids [id]) then Some x else None.
Proof.
  pose proof (id_dimension_keeps ids id) as HK.
  assert (passesDimension ids [id] <-> ids = [] \/ id ∈ ids) as HP.
  { unfold passesDimension. split; intros [?|Hx]; try by left.
    - right. destruct Hx as (x' & ->%list_elem_of_singleton & Hin). done.
    - right. exists id. split; [apply list_elem_of_singleton; done | done]. }
  destruct (decide _) as [Hd|Hd].
  - apply HP, HK in Hd. destruct ids; [done|]. by rewrite Hd.
  - destruct ids as [|i is_]; [exfalso; apply Hd; by left|].
    destruct (hasString (i :: is_) id) eqn:E; [|done].
    exfalso. by apply Hd, HP, HK.
Qed.

Lemma policy_chain_spec (S R A I : list string) (p : SpecPolicy) :
  Policy_withIDs
    (Policy_withActions (Policy_withResources (Policy_withSubjects (Some p) S) R) A) I =
  if decide (policyPasses S R A I p) then Some p else None.
Proof.
  change (policyWithIDs (withActions (withResources (withSubjects (Some p) S) R) A) I =
          if decide (policyPasses S R A I p) then Some p else None).
  unfold withSubjects. rewrite (keep_dimension S (Policy_Subjects p) p).
  destruct (decide (passesDimension S _)) as [HS|HS].
  2: { simpl. destruct (decide (policyPasses S R A I p)) as [[? _]|]; done. }
  unfold withResources. rewrite (keep_dimension R (Policy_Resources p) p).
  destruct (decide (passesDimension R _)) as [HR|HR].
  2: { simpl. destruct (decide (policyPasses S R A I p)) as [(_ & ? & _)|]; done. }
  unfold withActions. rewrite (keep_dimension A (Policy_Actions p) p).
  destruct (decide (passesDimension A _)) as [HA|HA].
  2: { simpl. destruct (decide (policyPasses S R A I p)) as [(_ & _ & ? & _)|]; done. }
  unfold policyWithIDs. rewrite (keep_id I (Policy_ID p) p).
  destruct (decide (passesDimension I _)) as [HI|HI];
    destruct (decide (policyPasses S R A I p)) as [HP|HP]; try done.
  - exfalso. by apply HP.
  - exfalso. by destruct HP as (_ & _ & _ & ?).
Qed.

Lemma rolesLoop_filter (roles : list SpecRole) (m : Query) (res : list SpecRole) :
  rolesLoop roles m res =
  res ++ filter (rolePasses (mapIndex m "member") (mapIndex m "id")) roles.
Proof.
  revert res. induction roles as [|r roles IH]; intros res; cbn [rolesLoop].
  - by rewrite app_nil_r.
  - rewrite withMembers_withIDs_spec, filter_cons.
    destruct (decide (rolePasses _ _ r)); rewrite IH; [|done].
    by rewrite <- app_assoc.
Qed.

Lemma policiesLoop_filter (policies : list SpecPolicy) (m : Query) (res : list SpecPolicy) :
  policiesLoop policies m res =
  res ++ filter (policyPasses (mapIndex m "subject") (mapIndex m "resource")
                              (mapIndex m "action") (mapIndex m "id")) policies.
Proof.
  revert res. induction policies as [|p policies IH]; intros res; cbn [policiesLoop].
  - by rewrite app_nil_r.
  - rewrite policy_chain_spec, filter_cons.
    destruct (decide (policyPasses _ _ _ _ p)); rewrite IH; [|done].
    by rewrite <- app_assoc.
Qed.

(** The window of the specification, [offset, offset+limit) cut at [n]. *)
Lemma specIndex_window (limit offset n : Z) :
  0 <= limit -> 0 <= offset -> 0 <= n ->
  specIndex limit offset n = (Z.min offset n, Z.min (offset + limit) n).
Proof.
  intros Hl Ho Hn. unfold specIndex.
  destruct (Z.gtb_spec offset n); [f_equal; lia|].
  destruct (Z.gtb_spec (limit + offset) n); f_equal; lia.
Qed.

Lemma specIndex_valid (limit offset n : Z) :
  0 <= limit -> 0 <= offset -> 0 <= n -> validWindow limit offset n.
Proof.
  intros Hl Ho Hn. unfold validWindow. simpl.
  rewrite specIndex_window by done. simpl. lia.
Qed.

(** With offset 0 and a limit that covers the sequence, the window is the
    whole sequence. *)
Lemma window_covering {A : Type} (res : list A) (limit : Z) :
  Z.of_nat (length res) <= limit -> window limit 0 res = Some res.
Proof.
  intros Hl. unfold window. simpl.
  rewrite specIndex_window by lia.
  rewrite Z.min_l, Z.min_r by lia. apply reslice_whole.
Qed.

(** What [Handler.List] passes on is never negative, so the window it asks
    for is inside the filtered sequence. *)
Lemma specParse_bounds (r : Request) :
  0 <= (specParse r 100 0 500).1 <= 500 /\ 0 <= (specParse r 100 0 500).2.
Proof.
  unfold specParse.
  generalize (default 100 (parseInt (queryGet (URL_Query r) "limit"))).
  generalize (default 0 (parseInt (queryGet (URL_Query r) "offset"))).
  intros b a. cbv zeta.
  destruct (Z.gtb_spec a 500); [|destruct (Z.ltb_spec a 0)];
    destruct (Z.ltb_spec b 0); simpl; lia.
Qed.

Lemma parsed_window_valid (r : Request) (n : Z) :
  0 <= n -> validWindow (Parse r 100 0 500).1 (Parse r 100 0 500).2 n.
Proof.
  intros Hn. pose proof (specParse_bounds r) as [[Hl _] Ho].
  by apply specIndex_valid.
Qed.

(** The window of the specification on a sequence: [limit] records from
    position [offset]. *)
Lemma window_take_drop {A : Type} (xs : list A) (limit offset : Z) :
  0 <= limit -> 0 <= offset ->
  window limit offset xs = Some (take (Z.to_nat limit) (drop (Z.to_nat offset) xs)).
Proof.
  intros Hl Ho. unfold window. simpl.
  rewrite specIndex_window by lia.
  rewrite reslice_in_bounds by lia. f_equal.
  destruct (decide (Z.of_nat (length xs) <= offset)) as [Hge|Hlt].
  - rewrite Z.min_r by lia. rewrite !drop_ge by lia. by rewrite !take_nil.
  - rewrite (Z.min_l offset) by lia.
    destruct (decide (offset + limit <= Z.of_nat (length xs))) as [Hin|Hout].
    + rewrite Z.min_l by lia. f_equal. lia.
    + rewrite Z.min_r by lia.
      rewrite !take_ge; [done | rewrite length_drop; lia | rewrite length_drop; lia].
Qed.

Lemma take_drop_sublist {A : Type} (xs : list A) (n k : nat) :
  take n (drop k xs) `sublist_of` xs.
Proof. etrans; [apply sublist_take | apply sublist_drop]. Qed.

(** C2, as the code has it. For every limit and offset that are not
    negative, [ListByQuery] on a [*Roles] value returns, and the sequence the
    returned request's [Value] points to is the window, [limit] roles from
    position [offset], of the roles of the input that pass the member filter
    [M] and the id filter [I], taken in the order of the input. So every
    role of the result is a role of the input that passes, the roles keep
    their relative order, and when the offset is 0 and the limit is not
    below the number of passing roles, a role is in the result iff it is in
    the input and ([M] is empty or one of its members is in [M]) and ([I] is
    empty or its ID is in [I]). *)
Theorem ListByQuery_roles_result (roles : list SpecRole) (m : Query)
    (l : ListRequest) (h : Heap) (p : addr) (offset limit : Z) :
  0 <= limit -> 0 <= offset ->
  ListRequest_Value l = PtrRoles p ->
  rolesAt h !! p = Some roles ->
  let M := mapIndex m "member" in
  let I := mapIndex m "id" in
  let passing := filter (rolePasses M I) roles in
  exists l' h' p' res,
    ListByQuery l m offset limit h = Returned (l', h') /\
    ListRequest_Value l' = PtrRoles p' /\
    rolesAt h' !! p' = Some res /\
    res = take (Z.to_nat limit) (drop (Z.to_nat offset) passing) /\
    (forall r, r ∈ passing <-> r ∈ roles /\ rolePasses M I r) /\
    passing `sublist_of` roles /\
    res `sublist_of` passing /\
    (forall r, r ∈ res -> r ∈ roles /\ rolePasses M I r) /\
    (offset = 0 -> Z.of_nat (length passing) <= limit ->
     forall r, r ∈ res <-> r ∈ roles /\ rolePasses M I r).
Proof.
  intros Hl Ho Hv Hp M I passing.
  set (res := take (Z.to_nat limit) (drop (Z.to_nat offset) passing)).
  assert (forall r, r ∈ passing <-> r ∈ roles /\ rolePasses M I r) as Hpass.
  { intros r. unfold passing. rewrite list_elem_of_filter. tauto. }
  assert (res `sublist_of` passing) as Hsub by apply take_drop_sublist.
  exists (set_Value l (PtrRoles (fresh (dom (rolesAt h))))),
    {| rolesAt := <[fresh (dom (rolesAt h)) := res]> (rolesAt h);
       policiesAt := policiesAt h |},
    (fresh (dom (rolesAt h))), res.
  split.
  { rewrite (ListByQuery_roles (H := specStorage) _ _ _ _ _ _ _ Hv Hp).
    rewrite rolesLoop_filter. simpl. fold M I passing.
    by rewrite (window_take_drop passing limit offset Hl Ho). }
  split; [done|]. split; [simpl; by rewrite lookup_insert_eq|].
  split; [done|]. split; [done|].
  split; [apply sublist_filter|]. split; [done|]. split.
  - intros r Hr. apply Hpass. by apply (elem_of_sublist res passing).
  - intros -> Hcover r. unfold res. simpl. rewrite drop_0, take_ge by lia. apply Hpass.
Qed.

(** C3, as the code has it. For every limit and offset that are not
    negative, [ListByQuery] on a [*Policies] value returns, and the sequence
    the returned request's [Value] points to is the window, [limit] policies
    from position [offset], of the policies of the input that pass each of
    the subject, resource, action and id dimensions, taken in the order of
    the input; an empty dimension, and so an absent one, is passed by every
    policy. So every policy of the result passes all four dimensions, and
    when the offset is 0 and the limit is not below the number of passing
    policies, a policy is in the result iff it is in the input and passes
    every dimension that is not empty. *)
Theorem ListByQuery_policies_result (policies : list SpecPolicy) (m : Query)
    (l : ListRequest) (h : Heap) (p : addr) (offset limit : Z) :
  0 <= limit -> 0 <= offset ->
  ListRequest_Value l = PtrPolicies p ->
  policiesAt h !! p = Some policies ->
  let S := mapIndex m "subject" in
  let R := mapIndex m "resource" in
  let A := mapIndex m "action" in
  let I := mapIndex m "id" in
  let passes (q : SpecPolicy) :=
    (S = [] \/ exists x, x ∈ Policy_Subjects q /\ x ∈ S) /\
    (R = [] \/ exists x, x ∈ Policy_Resources q /\ x ∈ R) /\
    (A = [] \/ exists x, x ∈ Policy_Actions q /\ x ∈ A) /\
    (I = [] \/ Policy_ID q ∈ I) in
  let passing := filter (policyPasses S R A I) policies in
  exists l' h' p' res,
    ListByQuery l m offset limit h = Returned (l', h') /\
    ListRequest_Value l' = PtrPolicies p' /\
    policiesAt h' !! p' = Some res /\
    res = take (Z.to_nat limit) (drop (Z.to_nat offset) passing) /\
    (forall q, q ∈ passing <-> q ∈ policies /\ passes q) /\
    passing `sublist_of` policies /\
    res `sublist_of` passing /\
    (forall q, q ∈ res -> q ∈ policies /\ passes q) /\
    (forall k xs, m !! k = None \/ m !! k = Some [] -> passesDimension (mapIndex m k) xs) /\
    (offset = 0 -> Z.of_nat (length passing) <= limit ->
     forall q, q ∈ res <-> q ∈ policies /\ passes q).
Proof.
  intros Hl Ho Hv Hp S R A I passes passing.
  set (res := take (Z.to_nat limit) (drop (Z.to_nat offset) passing)).
  assert (forall q, q ∈ passing <-> q ∈ policies /\ passes q) as Hpass.
  { intros q. unfold passing, passes. rewrite list_elem_of_filter.
    unfold policyPasses, passesDimension.
    assert ((exists x, x ∈ [Policy_ID q] /\ x ∈ I) <-> Policy_ID q ∈ I) as ->.
    { split.
      - by intros (x & ->%list_elem_of_singleton & Hin).
      - intros Hin. exists (Policy_ID q). split; [by apply list_elem_of_singleton | done]. }
    tauto. }
  assert (res `sublist_of` passing) as Hsub by apply take_drop_sublist.
  exists (set_Value l (PtrPolicies (fresh (dom (policiesAt h))))),
    {| rolesAt := rolesAt h;
       policiesAt := <[fresh (dom (policiesAt h)) := res]> (policiesAt h) |},
    (fresh (dom (policiesAt h))), res.
  split.
  { rewrite (ListByQuery_policies (H := specStorage) _ _ _ _ _ _ _ Hv Hp).
    rewrite policiesLoop_filter. simpl. fold S R A I passing.
    by rewrite (window_take_drop passing limit offset Hl Ho). }
  split; [done|]. split; [simpl; by rewrite lookup_insert_eq|].
  split; [done|]. split; [done|].
  split; [apply sublist_filter|]. split; [done|]. split; [|split].
  - intros q Hq. apply Hpass. by apply (elem_of_sublist res passing).
  - intros k xs Hk. left. unfold mapIndex. by destruct Hk as [-> | ->].
  - intros -> Hcover q. unfold res. simpl. rewrite drop_0, take_ge by lia. apply Hpass.
Qed.

(** C8. With offset 0 and a limit not below the length of the sequence, the
    window returns the sequence itself, so applying it twice gives what
    applying it once gives. *)
Theorem window_idempotent {A : Type} (res : list A) (limit : Z) :
  Z.of_nat (length res) <= limit ->
  window limit 0 res = Some res /\
  (window limit 0 res ≫= window limit 0) = window limit 0 res.
Proof.
  intros Hl. rewrite (window_covering res limit Hl). split; [done|].
  simpl. apply (window_covering res limit Hl).
Qed.

(** The roles [r1 r3], both with the member alice, the query [member=alice]
    and limit 1: the request ends up pointing to [r1]. *)
Lemma ListByQuery_limit_one_run :
  ListByQuery exRolesRequest qMemberAlice 0 1 exHeapAlice =
    Returned (set_Value exRolesRequest (PtrRoles 1),
              {| rolesAt := {[ 0%nat := [r1; r3]; 1%nat := [r1] ]}; policiesAt := ∅ |}).
Proof. vm_compute. reflexivity. Qed.

(** C2, as stated, fails: [r3] is in the input and passes the member filter,
    and it is not in the result. *)
Lemma ListByQuery_drops_passing_role :
  ~ resultIsPassingRoles [r1; r3] qMemberAlice 0 1 exRolesRequest exHeapAlice.
Proof.
  intros Hc.
  specialize (Hc _ _ 1%nat [r1] ListByQuery_limit_one_run eq_refl eq_refl r3).
  assert (r3 ∈ [r1]) as Hin.
  { apply Hc. split; [by right; left|]. split; [|by left].
    right. exists "alice". split; by left. }
  apply list_elem_of_singleton in Hin. discriminate Hin.
Qed.

Lemma ListByQuery_roles_result_witness :
  exists l' h' p' res,
    ListByQuery exRolesRequest qMemberAlice 0 1 exHeapAlice = Returned (l', h') /\
    ListRequest_Value l' = PtrRoles p' /\
    rolesAt h' !! p' = Some res /\
    res = [r1].
Proof.
  destruct (ListByQuery_roles_result [r1; r3] qMemberAlice exRolesRequest exHeapAlice
              0%nat 0 1) as (l' & h' & p' & res & Hrun & Hv & Hp & Hres & _).
  - lia.
  - lia.
  - reflexivity.
  - reflexivity.
  - exists l', h', p', res. split; [exact Hrun|]. split; [exact Hv|].
    split; [exact Hp|]. rewrite Hres. vm_compute. reflexivity.
Defined.

(** The policies [p1 p2], both with the action read, the query
    [action=read] and limit 1: the request ends up pointing to [p1]. *)
Lemma ListByQuery_policies_limit_one_run :
  ListByQuery exPoliciesRequest qActionRead 0 1 exHeapRead =
    Returned (set_Value exPoliciesRequest (PtrPolicies 1),
              {| rolesAt := ∅; policiesAt := {[ 0%nat := [p1; p2]; 1%nat := [p1] ]} |}).
Proof. vm_compute. reflexivity. Qed.

(** C3, as stated, fails: [p2] is in the input and passes every dimension,
    and it is not retained in the result. *)
Lemma ListByQuery_drops_passing_policy :
  ~ resultIsPassingPolicies [p1; p2] qActionRead 0 1 exPoliciesRequest exHeapRead.
Proof.
  intros Hc.
  specialize (Hc _ _ 1%nat [p1] ListByQuery_policies_limit_one_run eq_refl eq_refl p2).
  assert (p2 ∈ [p1]) as Hin.
  { apply Hc. split; [by right; left|].
    split; [by left|]. split; [by left|]. split; [|by left].
    right. exists "read". split; by left. }
  apply list_elem_of_singleton in Hin. discriminate Hin.
Qed.

Lemma ListByQuery_policies_result_witness :
  exists l' h' p' res,
    ListByQuery exPoliciesRequest qActionRead 0 1 exHeapRead = Returned (l', h') /\
    ListRequest_Value l' = PtrPolicies p' /\
    policiesAt h' !! p' = Some res /\
    res = [p1].
Proof.
  destruct (ListByQuery_policies_result [p1; p2] qActionRead exPoliciesRequest exHeapRead
              0%nat 0 1) as (l' & h' & p' & res & Hrun & Hv & Hp & Hres & _).
  - lia.
  - lia.
  - reflexivity.
  - reflexivity.
  - exists l', h', p', res. split; [exact Hrun|]. split; [exact Hv|].
    split; [exact Hp|]. rewrite Hres. vm_compute. reflexivity.
Defined.

Lemma window_idempotent_witness :
  window 2 0 [r1; r2] = Some [r1; r2] /\
  (window 2 0 [r1; r2] ≫= window 2 0) = window 2 0 [r1; r2].
Proof. apply window_idempotent. simpl. lia. Defined.

(** * Further properties of the handler *)

(** ** The kind of a collection *)

Lemma Split_pieces_no_sep s sep x :
  x ∈ Split s sep -> sep ∉ String.list_ascii_of_string x.
Proof.
  revert x. induction s as [|c rest IH]; simpl; intros x Hx.
  - apply list_elem_of_singleton in Hx. subst x. simpl. apply not_elem_of_nil.
  - destruct (Ascii.eqb_spec c sep) as [->|Hne].
    + apply elem_of_cons in Hx as [-> | Hx]; [simpl; apply not_elem_of_nil | by apply IH].
    + pose proof (Split_nonempty rest sep) as Hnil.
      destruct (Split rest sep) as [|seg segs]; [done|].
      apply elem_of_cons in Hx as [-> | Hx].
      * simpl. apply not_elem_of_cons. split; [done|]. apply IH. by left.
      * apply IH. by right.
Qed.

Lemma last_cons_nonempty {A : Type} (x : A) (xs : list A) (d : A) :
  xs <> [] -> List.last (x :: xs) d = List.last xs d.
Proof. by destruct xs. Qed.

(** Either the string is one piece, or it ends in the separator followed by
    the last piece. *)
Lemma Split_last_suffix s sep :
  Split s sep = [s] \/
  exists pre, s = pre +:+ String sep (List.last (Split s sep) EmptyString).
Proof.
  induction s as [|c rest IH]; simpl; [by left|].
  pose proof (Split_nonempty rest sep) as Hnil.
  destruct (Ascii.eqb_spec c sep) as [->|Hne].
  - right. rewrite last_cons_nonempty by done.
    destruct IH as [E | [pre E]].
    + exists EmptyString. by rewrite E.
    + exists (String sep pre).
      change (String sep rest =
              String sep (pre +:+ String sep (List.last (Split rest sep) EmptyString))).
      by f_equal.
  - destruct IH as [E | [pre E]].
    + left. by rewrite E.
    + right. exists (String c pre).
      assert (exists seg seg' segs, Split rest sep = seg :: seg' :: segs) as (seg & seg' & segs & E2).
      { pose proof (Split_app_sep pre (List.last (Split rest sep) EmptyString) sep) as Ha.
        rewrite <- E in Ha.
        pose proof (Split_nonempty pre sep) as H1.
        pose proof (Split_nonempty (List.last (Split rest sep) EmptyString) sep) as H2.
        destruct (Split pre sep) as [|a as_]; [done|].
        destruct (Split (List.last (Split rest sep) EmptyString) sep) as [|b bs]; [done|].
        rewrite Ha. destruct as_ as [|a' as_']; simpl; eauto. }
      rewrite E2 in E |- *. rewrite (last_cons_nonempty (String c seg)) by done.
      rewrite (last_cons_nonempty seg) in E by done.
      change (String c rest =
              String c (pre +:+ String sep (List.last (seg' :: segs) EmptyString))).
      by f_equal.
Qed.

(** X1. The kind that [Handler.List] derives from a collection name contains
    no [/], and the name is either the kind itself or some prefix, a [/], and
    the kind: the kind is what follows the last [/] of the name. *)
Theorem collectionType_after_last_slash (collection : string) :
  ("/"%char ∉ String.list_ascii_of_string (collectionType collection)) /\
  (collection = collectionType collection \/
   exists pre, collection = pre +:+ String "/" (collectionType collection)).
Proof.
  unfold collectionType. split.
  - apply (Split_pieces_no_sep collection).
    pose proof (Split_last_lookup collection "/"%char) as Hl.
    by apply list_elem_of_lookup_2 in Hl.
  - destruct (Split_last_suffix collection "/"%char) as [E | Hex]; [|by right].
    left. by rewrite E.
Qed.

Lemma collectionType_trailing_slash (pre : string) :
  collectionType (pre +:+ "/") = EmptyString.
Proof.
  unfold collectionType.
  change (pre +:+ "/") with (pre +:+ String "/" EmptyString).
  rewrite Split_app_sep. by rewrite last_app_nonempty.
Qed.

(** ** Handler.List on all its paths *)

Section ListPaths.
Context `{StorageTypes} `{Pagination} `{!Manager}.

Variable otherFilterFunc :
  nat -> ListRequest -> Query -> Z -> Z -> Heap -> result (ListRequest * Heap).

(** The events of a run of [Handler.List] once the factory has succeeded:
    the backend call, then an error, a success response, or a panic. *)
Lemma Handler_List_events factory r ps w l h1 limit offset :
  factory r ps (heap w) = (inr l, h1) ->
  Parse r 100 0 500 = (limit, offset) ->
  let call :=
    if isFilter (ListRequest_Collection l) (URL_Query r)
    then CallListAll (ListRequest_Collection l) (ListRequest_Value l)
    else CallList (ListRequest_Collection l) (ListRequest_Value l) limit offset in
  let out := Handler_List otherFilterFunc factory r ps w in
  (exists err, log out.1 = log w ++ [call; EvWriteError err] /\ out.2 = None) \/
  (exists v, log out.1 = log w ++ [call; EvWrite v] /\ out.2 = None) \/
  (exists c, log out.1 = log w ++ [call] /\ out.2 = Some c).
Proof.
  intros Hf Hp call out. unfold out.
  rewrite (Handler_List_run otherFilterFunc _ _ _ _ _ _ _ _ Hf Hp).
  destruct (fetch _ _ _ _ _ _) as [[err|] w2] eqn:Hfetch;
    pose proof (fetch_log _ _ _ _ _ _ _ Hfetch) as Hlog; simpl in Hlog; fold call in Hlog.
  - left. exists err. simpl. rewrite Hlog. by rewrite <- app_assoc.
  - destruct (ListRequest_Filter _ _ _ _ _ _) as [[l' h2]|c].
    + right; left. exists (ListRequest_Value l'). simpl. rewrite Hlog.
      by rewrite <- app_assoc.
    + right; right. exists c. by simpl.
Qed.

(** X2. The failure paths of [Handler.List]. When the factory fails, the
    handler writes that error and does nothing else: no backend call, and
    the bound filter function is not run. When the backend call fails (be it
    [ListAll] or [List]), the handler writes that error after the call; the
    filter function is not run and no success response is written. *)
Theorem Handler_List_failure_paths factory r ps w :
  (forall err h1,
      factory r ps (heap w) = (inl err, h1) ->
      Handler_List otherFilterFunc factory r ps w =
        ({| heap := h1; db := db w; log := log w ++ [EvWriteError err] |}, None)) /\
  (forall l h1 limit offset err h2 d2,
      factory r ps (heap w) = (inr l, h1) ->
      Parse r 100 0 500 = (limit, offset) ->
      (if isFilter (ListRequest_Collection l) (URL_Query r)
       then Manager_ListAll (ListRequest_Collection l) (ListRequest_Value l) h1 (db w)
       else Manager_List (ListRequest_Collection l) (ListRequest_Value l) limit offset
                         h1 (db w)) = (Some err, h2, d2) ->
      Handler_List otherFilterFunc factory r ps w =
        ({| heap := h2; db := d2;
            log := log w ++
                   [if isFilter (ListRequest_Collection l) (URL_Query r)
                    then CallListAll (ListRequest_Collection l) (ListRequest_Value l)
                    else CallList (ListRequest_Collection l) (ListRequest_Value l)
                                  limit offset;
                    EvWriteError err] |}, None)).
Proof.
  split.
  - intros err h1 Hf. unfold Handler_List. by rewrite Hf.
  - intros l h1 limit offset err h2 d2 Hf Hp Hb.
    rewrite (Handler_List_run otherFilterFunc _ _ _ _ _ _ _ _ Hf Hp), fetch_isFilter.
    unfold call_ListAll, call_List, backend, emit. simpl.
    destruct (isFilter _ _); rewrite Hb; simpl; by rewrite <- app_assoc.
Qed.

(** X3. [Handler.List] panics only where the function bound to [FilterFunc]
    panics: if a run ends in a panic, the factory had produced a request
    with a function bound, and that function, called on the request with the
    query and the parsed offset and limit in the heap the handler left,
    panics with that cause. In particular the index expression
    [split[len(split)-1]] never fails, and a request with no function bound
    never makes the handler panic. *)
Theorem Handler_List_panics_only_in_FilterFunc factory r ps w :
  (forall c,
      (Handler_List otherFilterFunc factory r ps w).2 = Some c ->
      exists l h1 f,
        factory r ps (heap w) = (inr l, h1) /\
        ListRequest_FilterFunc l = Some f /\
        callFilterFunc otherFilterFunc f l (URL_Query r)
          (Parse r 100 0 500).2 (Parse r 100 0 500).1
          (heap (Handler_List otherFilterFunc factory r ps w).1) = Panicked c) /\
  (forall l h1,
      factory r ps (heap w) = (inr l, h1) ->
      ListRequest_FilterFunc l = None ->
      (Handler_List otherFilterFunc factory r ps w).2 = None).
Proof.
  destruct (factory r ps (heap w)) as [[err|l] h1] eqn:Hf.
  { split; [|done]. intros c. unfold Handler_List. by rewrite Hf. }
  destruct (Parse r 100 0 500) as [limit offset] eqn:Hp.
  rewrite (Handler_List_run otherFilterFunc _ _ _ _ _ _ _ _ Hf Hp). simpl.
  destruct (fetch _ _ _ _ _ _) as [[err|] w2]; [by split|].
  unfold ListRequest_Filter. split.
  - intros c. destruct (ListRequest_FilterFunc l) as [f|] eqn:Hff; [|done].
    destruct (callFilterFunc _ _ _ _ _ _ _) as [[l' h2]|c'] eqn:Hcall; [done|].
    simpl. intros [= ->]. by exists l, h1, f.
  - intros l0 h0 [= <- <-] Hn. by rewrite Hn.
Qed.

(** X4. Every run of [Handler.Get], [Handler.Delete] and [Handler.Upsert]
    adds to the log at most one backend call followed by exactly one
    response; a success response ([Write] or the 204 header) comes only
    after a backend call. *)
Theorem handlers_respond_once r ps w :
  (forall factory : Factory GetRequest,
      exists calls resp,
        log (Handler_Get factory r ps w) = log w ++ calls ++ [resp] /\
        Forall (fun e => isBackendCall e = true) calls /\ (length calls <= 1)%nat /\
        isResponse resp = true /\
        (isSuccessWrite resp = true -> length calls = 1%nat)) /\
  (forall factory : Factory DeleteRequest,
      exists calls resp,
        log (Handler_Delete factory r ps w) = log w ++ calls ++ [resp] /\
        Forall (fun e => isBackendCall e = true) calls /\ (length calls <= 1)%nat /\
        isResponse resp = true /\
        (isSuccessWrite resp = true -> length calls = 1%nat)) /\
  (forall factory : Factory UpsertRequest,
      exists calls resp,
        log (Handler_Upsert factory r ps w) = log w ++ calls ++ [resp] /\
        Forall (fun e => isBackendCall e = true) calls /\ (length calls <= 1)%nat /\
        isResponse resp = true /\
        (isSuccessWrite resp = true -> length calls = 1%nat)).
Proof.
  split; [|split]; intros factory.
  - rewrite Handler_Get_cases.
    destruct (factory r ps (heap w)) as [[err|d] h1].
    + exists [], (EvWriteError err). simpl. repeat split; [constructor | lia | done].
    + simpl. destruct (Manager_Get _ _ _ _ _) as [[[err|] h2] d2]; simpl;
        eexists [_], _; (split; [reflexivity|]);
        repeat split; try done; by repeat constructor.
  - rewrite Handler_Delete_cases.
    destruct (factory r ps (heap w)) as [[err|d] h1].
    + exists [], (EvWriteError err). simpl. repeat split; [constructor | lia | done].
    + simpl. destruct (Manager_Delete _ _ _ _) as [[[err|] h2] d2]; simpl;
        eexists [_], _; (split; [reflexivity|]);
        repeat split; try done; by repeat constructor.
  - rewrite Handler_Upsert_cases.
    destruct (factory r ps (heap w)) as [[err|u] h1].
    + exists [], (EvWriteError err). simpl. repeat split; [constructor | lia | done].
    + simpl. destruct (Manager_Upsert _ _ _ _ _) as [[[err|] h2] d2]; simpl;
        eexists [_], _; (split; [reflexivity|]);
        repeat split; try done; by repeat constructor.
Qed.

(** X5. Every run of [Handler.List] adds to the log at most one backend
    call. A run that does not panic adds exactly one response after it, and
    a success response only after a backend call; a run that panics adds the
    backend call and no response. *)
Theorem Handler_List_responds_once factory r ps w :
  exists calls,
    Forall (fun e => isBackendCall e = true) calls /\ (length calls <= 1)%nat /\
    match (Handler_List otherFilterFunc factory r ps w).2 with
    | None =>
        exists resp,
          log (Handler_List otherFilterFunc factory r ps w).1 = log w ++ calls ++ [resp] /\
          isResponse resp = true /\
          (isSuccessWrite resp = true -> length calls = 1%nat)
    | Some _ =>
        log (Handler_List otherFilterFunc factory r ps w).1 = log w ++ calls /\
        length calls = 1%nat
    end.
Proof.
  destruct (factory r ps (heap w)) as [[err|l] h1] eqn:Hf.
  { exists []. split; [constructor|]. split; [simpl; lia|].
    unfold Handler_List. rewrite Hf. simpl. by exists (EvWriteError err). }
  destruct (Parse r 100 0 500) as [limit offset] eqn:Hp.
  pose proof (Handler_List_events _ _ _ _ _ _ _ _ Hf Hp) as Hev. simpl in Hev.
  set (call := if isFilter _ _ then _ else _) in Hev.
  assert (isBackendCall call = true) as Hcall.
  { unfold call. by destruct (isFilter _ _). }
  exists [call]. split; [by repeat constructor|]. split; [done|].
  destruct Hev as [(err & Hl & ->) | [(v & Hl & ->) | (c & Hl & ->)]].
  - by exists (EvWriteError err).
  - by exists (EvWrite v).
  - done.
Qed.

(** X6. A collection name that ends in [/] has the empty kind: whatever the
    query holds, also [member], [action], [subject] or [resource],
    [Handler.List] asks the backend for a page with [List]. *)
Theorem Handler_List_trailing_slash factory r ps w l h1 limit offset pre :
  factory r ps (heap w) = (inr l, h1) ->
  Parse r 100 0 500 = (limit, offset) ->
  ListRequest_Collection l = pre +:+ "/" ->
  collectionType (ListRequest_Collection l) = EmptyString /\
  exists evs,
    log (Handler_List otherFilterFunc factory r ps w).1 = log w ++ evs /\
    List.filter isBackendCall evs =
      [CallList (ListRequest_Collection l) (ListRequest_Value l) limit offset].
Proof.
  intros Hf Hp Hc.
  assert (collectionType (ListRequest_Collection l) = EmptyString) as Hk.
  { rewrite Hc. apply collectionType_trailing_slash. }
  split; [done|].
  pose proof (Handler_List_events _ _ _ _ _ _ _ _ Hf Hp) as Hev. simpl in Hev.
  assert (isFilter (ListRequest_Collection l) (URL_Query r) = false) as Hno.
  { unfold isFilter. by rewrite Hk. }
  rewrite Hno in Hev.
  destruct Hev as [(err & Hl & _) | [(v & Hl & _) | (c & Hl & _)]];
    eexists; (split; [exact Hl | done]).
Qed.

End ListPaths.

(** ** ListByQuery: what it reads, what it returns, when it panics *)

Lemma omap_not_longer {A B : Type} (f : A -> option B) (l : list A) :
  (length (omap f l) <= length l)%nat.
Proof.
  induction l as [|x l IH]; [done|]. csimpl.
  destruct (f x); simpl; lia.
Qed.

Lemma omap_sublist {A : Type} (f : A -> option A) (l : list A) :
  (forall x, f x = Some x \/ f x = None) -> omap f l `sublist_of` l.
Proof.
  intros Hf. induction l as [|x l IH]; [done|]. csimpl.
  destruct (Hf x) as [-> | ->]; by constructor.
Qed.

Lemma receiver_or_nil_chain {A : Type} (f g : option A -> list string -> option A)
    (xs ys : list string) (x : A) :
  returnsReceiverOrNil f -> returnsReceiverOrNil g ->
  g (f (Some x) xs) ys = Some x \/ g (f (Some x) xs) ys = None.
Proof.
  intros Hf Hg. destruct (Hf (Some x) xs) as [-> | ->]; [apply Hg|].
  right. by destruct (Hg None ys) as [-> | ->].
Qed.

Section ListByQueryOutcomes.
Context `{StorageTypes} `{Pagination}.

Lemma window_Some_sublist {A : Type} (limit offset : Z) (xs out : list A) :
  window limit offset xs = Some out ->
  out `sublist_of` xs /\ (length out <= length xs)%nat.
Proof.
  unfold window. destruct (Index _ _ _) as [start end_].
  intros (_ & -> & _)%reslice_Some_inv. split.
  - etrans; [apply sublist_take | apply sublist_drop].
  - rewrite length_take, length_drop. lia.
Qed.

Lemma window_Some_valid {A : Type} (limit offset : Z) (xs out : list A) :
  window limit offset xs = Some out -> validWindow limit offset (Z.of_nat (length xs)).
Proof.
  unfold window, validWindow. destruct (Index _ _ _) as [start end_]. simpl.
  by intros [Hb _]%reslice_Some_inv.
Qed.

(** X7. [ListByQuery] reads two values of the query on a [*Roles] value,
    those of [member] and [id], and four on a [*Policies] value, those of
    [subject], [resource], [action] and [id]: two queries that give the same
    values there give the same outcome, whatever else they hold (so the
    [limit] and [offset] keys of the query, which are in the map passed to
    it, play no part). *)
Theorem ListByQuery_reads_only_its_keys l m1 m2 offset limit h :
  (forall p,
      ListRequest_Value l = PtrRoles p ->
      mapIndex m1 "member" = mapIndex m2 "member" ->
      mapIndex m1 "id" = mapIndex m2 "id" ->
      ListByQuery l m1 offset limit h = ListByQuery l m2 offset limit h) /\
  (forall p,
      ListRequest_Value l = PtrPolicies p ->
      mapIndex m1 "subject" = mapIndex m2 "subject" ->
      mapIndex m1 "resource" = mapIndex m2 "resource" ->
      mapIndex m1 "action" = mapIndex m2 "action" ->
      mapIndex m1 "id" = mapIndex m2 "id" ->
      ListByQuery l m1 offset limit h = ListByQuery l m2 offset limit h).
Proof.
  split.
  - intros p Hv Hm Hi. unfold ListByQuery. rewrite Hv.
    destruct (rolesAt h !! p) as [roles|]; [|done].
    by rewrite !rolesLoop_omap, Hm, Hi.
  - intros p Hv Hs Hr Ha Hi. unfold ListByQuery. rewrite Hv.
    destruct (policiesAt h !! p) as [policies|]; [|done].
    by rewrite !policiesLoop_omap, Hs, Hr, Ha, Hi.
Qed.

(** X8. When the window of [pagination.Index] does not end beyond the
    filtered sequence, [ListByQuery] does not hand back more records than
    the collection held: when it returns on a [*Roles] (or [*Policies])
    value that pointed to [roles] (or [policies]), the request points to a
    sequence that is not longer. This holds for any [with...] methods. *)
Theorem ListByQuery_result_not_longer l m offset limit h l' h' :
  ListByQuery l m offset limit h = Returned (l', h') ->
  (forall p roles,
      ListRequest_Value l = PtrRoles p ->
      rolesAt h !! p = Some roles ->
      endsWithin limit offset (Z.of_nat (length (rolesLoop roles m []))) ->
      exists p' res,
        ListRequest_Value l' = PtrRoles p' /\ rolesAt h' !! p' = Some res /\
        (length res <= length roles)%nat) /\
  (forall p policies,
      ListRequest_Value l = PtrPolicies p ->
      policiesAt h !! p = Some policies ->
      endsWithin limit offset (Z.of_nat (length (policiesLoop policies m []))) ->
      exists p' res,
        ListRequest_Value l' = PtrPolicies p' /\ policiesAt h' !! p' = Some res /\
        (length res <= length policies)%nat).
Proof.
  intros Hrun. split.
  - intros p roles Hv Hp _.
    rewrite (ListByQuery_roles _ _ _ _ _ _ _ Hv Hp) in Hrun.
    destruct (window _ _ _) as [res|] eqn:Hw; [|done].
    simpl in Hrun. injection Hrun as <- <-.
    exists (fresh (dom (rolesAt h))), res. simpl.
    split; [done|]. split; [by rewrite lookup_insert_eq|].
    apply window_Some_sublist in Hw as [_ Hlen].
    rewrite rolesLoop_omap in Hlen. simpl in Hlen.
    etrans; [exact Hlen | apply omap_not_longer].
  - intros p policies Hv Hp _.
    rewrite (ListByQuery_policies _ _ _ _ _ _ _ Hv Hp) in Hrun.
    destruct (window _ _ _) as [res|] eqn:Hw; [|done].
    simpl in Hrun. injection Hrun as <- <-.
    exists (fresh (dom (policiesAt h))), res. simpl.
    split; [done|]. split; [by rewrite lookup_insert_eq|].
    apply window_Some_sublist in Hw as [_ Hlen].
    rewrite policiesLoop_omap in Hlen. simpl in Hlen.
    etrans; [exact Hlen | apply omap_not_longer].
Qed.

(** X9. If each [with...] method gives back its receiver or nil, and the
    window of [pagination.Index] does not end beyond the filtered sequence,
    the sequence [ListByQuery] stores is a subsequence of the collection:
    every record of the result is a record of the input, and the records
    keep their order; the loop and the re-slice neither reorder nor repeat. *)
Theorem ListByQuery_result_sublist l m offset limit h l' h' :
  ListByQuery l m offset limit h = Returned (l', h') ->
  (forall p roles,
      returnsReceiverOrNil Role_withMembers ->
      returnsReceiverOrNil Role_withIDs ->
      ListRequest_Value l = PtrRoles p ->
      rolesAt h !! p = Some roles ->
      endsWithin limit offset (Z.of_nat (length (rolesLoop roles m []))) ->
      exists p' res,
        ListRequest_Value l' = PtrRoles p' /\ rolesAt h' !! p' = Some res /\
        res `sublist_of` roles) /\
  (forall p policies,
      returnsReceiverOrNil Policy_withSubjects ->
      returnsReceiverOrNil Policy_withResources ->
      returnsReceiverOrNil Policy_withActions ->
      returnsReceiverOrNil Policy_withIDs ->
      ListRequest_Value l = PtrPolicies p ->
      policiesAt h !! p = Some policies ->
      endsWithin limit offset (Z.of_nat (length (policiesLoop policies m []))) ->
      exists p' res,
        ListRequest_Value l' = PtrPolicies p' /\ policiesAt h' !! p' = Some res /\
        res `sublist_of` policies).
Proof.
  intros Hrun. split.
  - intros p roles Hm Hi Hv Hp _.
    rewrite (ListByQuery_roles _ _ _ _ _ _ _ Hv Hp) in Hrun.
    destruct (window _ _ _) as [res|] eqn:Hw; [|done].
    simpl in Hrun. injection Hrun as <- <-.
    exists (fresh (dom (rolesAt h))), res. simpl.
    split; [done|]. split; [by rewrite lookup_insert_eq|].
    apply window_Some_sublist in Hw as [Hsub _].
    rewrite rolesLoop_omap in Hsub. simpl in Hsub.
    etrans; [exact Hsub|]. apply omap_sublist.
    intros role. by apply receiver_or_nil_chain.
  - intros p policies Hs Hr Ha Hi Hv Hp _.
    rewrite (ListByQuery_policies _ _ _ _ _ _ _ Hv Hp) in Hrun.
    destruct (window _ _ _) as [res|] eqn:Hw; [|done].
    simpl in Hrun. injection Hrun as <- <-.
    exists (fresh (dom (policiesAt h))), res. simpl.
    split; [done|]. split; [by rewrite lookup_insert_eq|].
    apply window_Some_sublist in Hw as [Hsub _].
    rewrite policiesLoop_omap in Hsub. simpl in Hsub.
    etrans; [exact Hsub|]. apply omap_sublist.
    intros policy.
    destruct (receiver_or_nil_chain Policy_withSubjects Policy_withResources
                (mapIndex m "subject") (mapIndex m "resource") policy Hs Hr) as [-> | ->].
    + by apply receiver_or_nil_chain.
    + destruct (Ha None (mapIndex m "action")) as [-> | ->]; right;
        by destruct (Hi None (mapIndex m "id")) as [-> | ->].
Qed.

(** X10. For a limit and an offset for which [pagination.Index] never ends
    beyond the length it is given, [ListByQuery] returns exactly when the
    request's [Value] is a [*Roles] or a [*Policies] pointer that points to
    a sequence and the window [pagination.Index] gives for the number [n]
    of records that pass has [0 <= start <= end] (and so lies in
    [0 .. n]). *)
Theorem ListByQuery_returns_iff l m offset limit h :
  (forall n, endsWithin limit offset n) ->
  (exists l' h', ListByQuery l m offset limit h = Returned (l', h')) <->
  (exists p roles,
      ListRequest_Value l = PtrRoles p /\ rolesAt h !! p = Some roles /\
      validWindow limit offset (Z.of_nat (length (rolesLoop roles m [])))) \/
  (exists p policies,
      ListRequest_Value l = PtrPolicies p /\ policiesAt h !! p = Some policies /\
      validWindow limit offset (Z.of_nat (length (policiesLoop policies m [])))).
Proof.
  intros _. split.
  - intros (l' & h' & Hrun). unfold ListByQuery in Hrun.
    destruct (ListRequest_Value l) as [p|p|tag|] eqn:Hv; try done.
    + left. destruct (rolesAt h !! p) as [roles|] eqn:Hp; [|done].
      destruct (window _ _ _) as [res|] eqn:Hw; [|done].
      exists p, roles. split; [done|]. split; [done|].
      by apply window_Some_valid in Hw.
    + right. destruct (policiesAt h !! p) as [policies|] eqn:Hp; [|done].
      destruct (window _ _ _) as [res|] eqn:Hw; [|done].
      exists p, policies. split; [done|]. split; [done|].
      by apply window_Some_valid in Hw.
  - intros [(p & roles & Hv & Hp & Hw) | (p & policies & Hv & Hp & Hw)].
    + rewrite (ListByQuery_roles _ _ _ _ _ _ _ Hv Hp).
      destruct (window_valid _ _ _ Hw) as (res & -> & _). simpl. eauto.
    + rewrite (ListByQuery_policies _ _ _ _ _ _ _ Hv Hp).
      destruct (window_valid _ _ _ Hw) as (res & -> & _). simpl. eauto.
Qed.

(** X11. The panics of [ListByQuery]: the "unable to cast" panic only on a
    [Value] that is neither a [*Roles] nor a [*Policies]; a nil dereference
    only on a [*Roles] or [*Policies] pointer that points to nothing; a
    slice-bounds panic only when the window of [pagination.Index] leaves the
    filtered sequence; and no other panic. *)
Theorem ListByQuery_panic_causes l m offset limit h c :
  ListByQuery l m offset limit h = Panicked c ->
  match c with
  | PanicMsg msg =>
      msg = "storage:unable to cast list request to a known type!" /\
      (forall p, ListRequest_Value l <> PtrRoles p) /\
      (forall p, ListRequest_Value l <> PtrPolicies p)
  | NilDereference =>
      (exists p, ListRequest_Value l = PtrRoles p /\ rolesAt h !! p = None) \/
      (exists p, ListRequest_Value l = PtrPolicies p /\ policiesAt h !! p = None)
  | SliceBounds =>
      (exists p roles,
          ListRequest_Value l = PtrRoles p /\ rolesAt h !! p = Some roles /\
          ~ validWindow limit offset (Z.of_nat (length (rolesLoop roles m [])))) \/
      (exists p policies,
          ListRequest_Value l = PtrPolicies p /\ policiesAt h !! p = Some policies /\
          ~ validWindow limit offset (Z.of_nat (length (policiesLoop policies m []))))
  | IndexRange => False
  end.
Proof.
  unfold ListByQuery.
  destruct (ListRequest_Value l) as [p|p|tag|] eqn:Hv.
  - destruct (rolesAt h !! p) as [roles|] eqn:Hp.
    + destruct (window _ _ _) as [res|] eqn:Hw; [done|].
      intros [= <-]. left. exists p, roles. split; [done|]. split; [done|].
      intros Hval. destruct (window_valid _ _ _ Hval) as (res & Hres & _). congruence.
    + intros [= <-]. left. by exists p.
  - destruct (policiesAt h !! p) as [policies|] eqn:Hp.
    + destruct (window _ _ _) as [res|] eqn:Hw; [done|].
      intros [= <-]. right. exists p, policies. split; [done|]. split; [done|].
      intros Hval. destruct (window_valid _ _ _ Hval) as (res & Hres & _). congruence.
    + intros [= <-]. right. by exists p.
  - by intros [= <-].
  - by intros [= <-].
Qed.

End ListByQueryOutcomes.

(** ** The further properties on concrete requests *)

(** A factory that fails, and a collection the backend does not have. *)
Lemma Handler_List_failure_paths_witness :
  Handler_List noOtherFilter failingFactory (exRequest qMemberAlice) [] exWorld =
    ({| heap := exHeap; db := exDB; log := [EvWriteError "malformed request"] |}, None) /\
  Handler_List noOtherFilter missingFactory (exRequest qMemberAlice) [] exWorld =
    ({| heap := exHeap; db := exDB;
        log := [CallList "/store/none" (PtrRoles 0) 100 0;
                EvWriteError "collection not found"] |}, None).
Proof.
  split.
  - exact (proj1 (Handler_List_failure_paths noOtherFilter failingFactory
                    (exRequest qMemberAlice) [] exWorld) _ _ eq_refl).
  - exact (proj2 (Handler_List_failure_paths noOtherFilter missingFactory
                    (exRequest qMemberAlice) [] exWorld)
             exMissingRequest exHeap 100 0 "collection not found" exHeap exDB
             eq_refl eq_refl eq_refl).
Defined.

(** A bound function that panics makes the handler panic with its cause. *)
Lemma Handler_List_panics_only_in_FilterFunc_witness :
  exists l h1 f,
    otherFilterFactory (exRequest ∅) [] (heap exWorld) = (inr l, h1) /\
    ListRequest_FilterFunc l = Some f /\
    callFilterFunc panickingFilter f l (URL_Query (exRequest ∅))
      (Parse (exRequest ∅) 100 0 500).2 (Parse (exRequest ∅) 100 0 500).1
      (heap (Handler_List panickingFilter otherFilterFactory (exRequest ∅) [] exWorld).1)
    = Panicked (PanicMsg "filter failed").
Proof.
  apply (proj1 (Handler_List_panics_only_in_FilterFunc panickingFilter otherFilterFactory
                  (exRequest ∅) [] exWorld)).
  vm_compute. reflexivity.
Defined.

Lemma handlers_respond_once_witness :
  exists calls resp,
    log (Handler_Get (getFactory "r1") (exRequest ∅) [] exWorld) =
      log exWorld ++ calls ++ [resp] /\
    Forall (fun e => isBackendCall e = true) calls /\ (length calls <= 1)%nat /\
    isResponse resp = true /\
    (isSuccessWrite resp = true -> length calls = 1%nat).
Proof.
  apply (proj1 (handlers_respond_once (exRequest ∅) [] exWorld)).
Defined.

Lemma Handler_List_responds_once_witness :
  exists calls resp,
    log (Handler_List noOtherFilter rolesFactory (exRequest qPage) [] exWorld).1 =
      calls ++ [resp] /\
    (length calls <= 1)%nat /\ isResponse resp = true.
Proof.
  destruct (Handler_List_responds_once noOtherFilter rolesFactory (exRequest qPage) []
              exWorld) as (calls & _ & Hlen & Hrun).
  vm_compute in Hrun. destruct Hrun as (resp & Hlog & Hresp & _).
  exists calls, resp. vm_compute. by repeat split.
Defined.

(** [/store/roles/] with [member=alice] in the query: the backend is asked
    for a page. *)
Lemma Handler_List_trailing_slash_witness :
  collectionType "/store/roles/" = EmptyString /\
  exists evs,
    log (Handler_List noOtherFilter slashFactory (exRequest qMemberAlice) [] exWorld).1 =
      [] ++ evs /\
    List.filter isBackendCall evs = [CallList "/store/roles/" (PtrRoles 0) 100 0].
Proof.
  exact (Handler_List_trailing_slash noOtherFilter slashFactory (exRequest qMemberAlice) []
           exWorld exSlashRequest exHeap 100 0 "/store/roles" eq_refl eq_refl eq_refl).
Defined.

Lemma ListByQuery_reads_only_its_keys_witness :
  ListByQuery exRolesRequest qMemberAlice 0 10 exHeap =
  ListByQuery exRolesRequest qMemberAlicePaged 0 10 exHeap.
Proof.
  apply (proj1 (ListByQuery_reads_only_its_keys exRolesRequest qMemberAlice
                  qMemberAlicePaged 0 10 exHeap) 0%nat); reflexivity.
Defined.

Lemma ListByQuery_result_not_longer_witness :
  exists p' res,
    PtrRoles 1 = PtrRoles p' /\
    ({[ 0%nat := [r1; r2]; 1%nat := [r1] ]} : gmap addr (list SpecRole)) !! p' = Some res /\
    (length res <= 2)%nat.
Proof.
  apply (proj1 (ListByQuery_result_not_longer _ _ _ _ _ _ _ ListByQuery_example_run)
           0%nat [r1; r2]).
  - reflexivity.
  - reflexivity.
  - unfold endsWithin. vm_compute. discriminate.
Defined.

Lemma withMembers_receiver_or_nil : returnsReceiverOrNil withMembers.
Proof.
  intros [role|] members; [|by left]. simpl.
  destruct members; [by left|]. destruct (intersects _ _); [by left | by right].
Qed.

Lemma roleWithIDs_receiver_or_nil : returnsReceiverOrNil roleWithIDs.
Proof.
  intros [role|] ids; [|by left]. simpl.
  destruct ids; [by left|]. destruct (hasString _ _); [by left | by right].
Qed.

Lemma ListByQuery_result_sublist_witness :
  exists p' res,
    PtrRoles 1 = PtrRoles p' /\
    ({[ 0%nat := [r1; r2]; 1%nat := [r1] ]} : gmap addr (list SpecRole)) !! p' = Some res /\
    res `sublist_of` [r1; r2].
Proof.
  apply (proj1 (ListByQuery_result_sublist _ _ _ _ _ _ _ ListByQuery_example_run) 0%nat [r1; r2]).
  - exact withMembers_receiver_or_nil.
  - exact roleWithIDs_receiver_or_nil.
  - reflexivity.
  - reflexivity.
  - unfold endsWithin. vm_compute. discriminate.
Defined.

(** The window of the specification never ends beyond the length. *)
Lemma specIndex_ends_within (limit offset n : Z) : endsWithin limit offset n.
Proof.
  unfold endsWithin. simpl. unfold specIndex.
  destruct (Z.gtb_spec offset n); [simpl; lia|].
  destruct (Z.gtb_spec (limit + offset) n); simpl; lia.
Qed.

Lemma ListByQuery_returns_iff_witness :
  exists l' h', ListByQuery exRolesRequest qMemberAlice 0 10 exHeap = Returned (l', h').
Proof.
  apply (proj2 (ListByQuery_returns_iff exRolesRequest qMemberAlice 0 10 exHeap
                  (specIndex_ends_within 10 0))).
  left. exists 0%nat, [r1; r2]. split; [reflexivity|]. split; [reflexivity|].
  unfold validWindow. vm_compute. repeat split; discriminate.
Defined.

(** A [*Roles] pointer that points to nothing. *)
Lemma ListByQuery_panic_causes_witness :
  (exists p, ListRequest_Value exNilRequest = PtrRoles p /\ rolesAt exHeap !! p = None) \/
  (exists p, ListRequest_Value exNilRequest = PtrPolicies p /\ policiesAt exHeap !! p = None).
Proof.
  apply (ListByQuery_panic_causes exNilRequest qMemberAlice 0 10 exHeap NilDereference).
  vm_compute. reflexivity.
Defined.
